(** * AccessGuru training pipeline: a shallow embedding of
      [backend/train_model.py]

    The definitions follow the source top to bottom:

    - [Text]      the Python [str] operations the extractor uses
                  ([lower], [upper], [in], [count], [split], [strip]);
    - [Re]        the fragment of Python's [re] the patterns of the source
                  are written in, with a backtracking matcher;
    - the feature extractor, [extract_everything] and
      [extract_html_features];
    - [Frame]     the pandas table the pipeline assembles; after it the
                  candidate feature list, the score dictionaries and the
                  URL flags of [train_and_save_model];
    - [Pipeline]  the split, remap and oversample steps of
                  [train_and_save_model] over a store of objects.

    The properties come after all definitions.

    Text is a sequence of 8-bit characters, and the case conversions and
    the white space are those of ASCII text; a float read by [float()] is
    kept as the decimal rational it denotes.  BeautifulSoup's parser, the
    train/test splitter and the oversampler are library code and enter as
    parameters, each a call that returns or raises; what BeautifulSoup
    does with a tree once it is built ([find_all], [find], [get_text]) is
    modelled. *)

From Stdlib Require Import ZArith QArith Qround Ascii String List Bool Lia.
From stdpp Require Import gmap strings list sorting.

Open Scope Z_scope.

Set Warnings "-notation-for-abbreviation,-register-all".

(** ** Exceptions and the error monad *)

Inductive exn : Type :=
| ValueError
| KeyError (key : string)
| ParserRejectedMarkup.

Inductive result (A : Type) : Type :=
| Ok (a : A)
| Raise (e : exn).
Arguments Ok {A} a.
Arguments Raise {A} e.

#[global] Instance result_ret : MRet result := fun _ a => Ok a.
#[global] Instance result_fmap : FMap result := fun _ _ f m =>
  match m with
  | Ok a => Ok (f a)
  | Raise e => Raise e
  end.
#[global] Instance result_bind : MBind result := fun _ _ f m =>
  match m with
  | Ok a => f a
  | Raise e => Raise e
  end.

Definition raises {A : Type} (m : result A) : bool :=
  match m with Ok _ => false | Raise _ => true end.

(** ** Python [str] *)

Module Text.

Notation text := (list ascii) (only parsing).

(** A string literal of the source. *)
Definition str (s : string) : text := list_ascii_of_string s.

Definition code (c : ascii) : N := N_of_ascii c.

Definition in_range (lo hi c : ascii) : bool :=
  ((code lo <=? code c) && (code c <=? code hi))%N.

Definition is_upper (c : ascii) : bool := in_range "A" "Z" c.
Definition is_lower (c : ascii) : bool := in_range "a" "z" c.
Definition is_digit (c : ascii) : bool := in_range "0" "9" c.

Definition lower_char (c : ascii) : ascii :=
  if is_upper c then ascii_of_N (code c + 32) else c.
Definition upper_char (c : ascii) : ascii :=
  if is_lower c then ascii_of_N (code c - 32) else c.

(** [s.lower()], [s.upper()], character by character.  On the letters of
    ASCII these are Python's conversions.  A character outside ASCII is
    left as it is, where Python applies the Unicode tables; under these
    [upper()] gives the letter A for one character outside ASCII (U+1E9A
    becomes A followed by U+02BE), so no property below says that an
    upper-cased text has the letter A only where the text had a or A. *)
Definition lower (s : text) : text := map lower_char s.
Definition upper (s : text) : text := map upper_char s.

(** [c.isspace()]: tab, line feed, vertical tab, form feed, carriage
    return, the four separators 0x1c-0x1f and the space. *)
Definition isspace (c : ascii) : bool :=
  ((9 <=? code c) && (code c <=? 13) || (28 <=? code c) && (code c <=? 32))%N.

Definition ascii_eqb (a b : ascii) : bool := Ascii.eqb a b.

Fixpoint startswith (p s : text) : bool :=
  match p, s with
  | [], _ => true
  | _ :: _, [] => false
  | a :: p', b :: s' => ascii_eqb a b && startswith p' s'
  end.

(** [needle in hay] *)
Fixpoint contains (needle hay : text) : bool :=
  startswith needle hay ||
  match hay with
  | [] => false
  | _ :: hay' => contains needle hay'
  end.

(** [any(x in hay for x in needles)] *)
Definition contains_any (needles : list text) (hay : text) : bool :=
  existsb (fun x => contains x hay) needles.

(** [hay.count(needle)] for a non-empty needle: occurrences are counted
    left to right without overlap, [skip] being the number of characters
    still covered by the last occurrence counted. *)
Fixpoint count_from (needle hay : text) (skip : nat) : Z :=
  match hay with
  | [] => 0
  | _ :: hay' =>
      match skip with
      | S k => count_from needle hay' k
      | O => if startswith needle hay
             then 1 + count_from needle hay' (length needle - 1)%nat
             else count_from needle hay' 0
      end
  end.
Definition count (needle hay : text) : Z := count_from needle hay 0.

(** [s.split()]: the maximal runs of non-space characters. [cur] is the
    run being read, most recent character first. *)
Fixpoint split_from (s cur : text) : list text :=
  match s with
  | [] => match cur with [] => [] | _ => [rev cur] end
  | c :: s' =>
      if isspace c
      then match cur with
           | [] => split_from s' []
           | _ => rev cur :: split_from s' []
           end
      else split_from s' (c :: cur)
  end.
Definition split (s : text) : list text := split_from s [].

(** [s.strip()] *)
Fixpoint lstrip (s : text) : text :=
  match s with
  | c :: s' => if isspace c then lstrip s' else s
  | [] => []
  end.
Definition rstrip (s : text) : text := rev (lstrip (rev s)).
Definition strip (s : text) : text := rstrip (lstrip s).

(** [len(s)] *)
Definition len {A : Type} (l : list A) : Z := Z.of_nat (length l).

Definition text_eqb (a b : text) : bool :=
  bool_decide (a = b).

End Text.
Import Text.

(** ** Python [re]: the fragment the source's patterns use *)

Module Re.

(** Every pattern of the source has at most one capturing group, so a
    match carries one slot, [group(1)]. *)
Inductive regex : Type :=
| Lit (c : ascii)              (* a literal character *)
| Range (lo hi : ascii)        (* [lo-hi] inside a class *)
| Space                        (* \s *)
| Any                          (* . : any character but a line feed *)
| Seq (a b : regex)
| Alt (a b : regex)            (* a|b, and the union of a class *)
| Star (a : regex)             (* a*  greedy *)
| LazyStar (a : regex)         (* a*? *)
| Group (a : regex)            (* (a) *)
| Eol                          (* $ *)
| Eps.                         (* the empty pattern *)

(** [a+] *)
Definition Plus (a : regex) : regex := Seq a (Star a).

(** A run of literal characters. *)
Fixpoint Lits (s : text) : regex :=
  match s with
  | [] => Eps
  | [c] => Lit c
  | c :: s' => Seq (Lit c) (Lits s')
  end.

Definition line_feed : ascii := ascii_of_N 10.

(** One character against a literal, under [re.IGNORECASE] when [ic]. *)
Definition same_char (ic : bool) (a b : ascii) : bool :=
  if ic then ascii_eqb (lower_char a) (lower_char b) else ascii_eqb a b.

Definition in_class (ic : bool) (lo hi c : ascii) : bool :=
  if ic
  then in_range lo hi c || in_range lo hi (lower_char c)
       || in_range lo hi (upper_char c)
  else in_range lo hi c.

(** The text a group consumed: what [s] has in front of its suffix [rest]. *)
Definition consumed (s rest : text) : text :=
  take (length s - length rest)%nat s.

Definition groups := option (list ascii).

(** Backtracking matcher in continuation-passing style: [rmatch ic r s g k]
    matches [r] at the front of [s] and hands the rest of the text and the
    group to [k]; the first alternative that lets [k] succeed wins, as in
    Python.  A starred expression is iterated at most [length s] times
    since every further round has to consume a character. *)
Fixpoint rmatch (ic : bool) (r : regex) (s : text) (g : groups)
    (k : text → groups → option groups) {struct r} : option groups :=
  match r with
  | Lit c =>
      match s with
      | c' :: s' => if same_char ic c c' then k s' g else None
      | [] => None
      end
  | Range lo hi =>
      match s with
      | c' :: s' => if in_class ic lo hi c' then k s' g else None
      | [] => None
      end
  | Space =>
      match s with
      | c' :: s' => if isspace c' then k s' g else None
      | [] => None
      end
  | Any =>
      match s with
      | c' :: s' => if ascii_eqb c' line_feed then None else k s' g
      | [] => None
      end
  | Seq a b => rmatch ic a s g (fun s1 g1 => rmatch ic b s1 g1 k)
  | Alt a b =>
      match rmatch ic a s g k with
      | Some m => Some m
      | None => rmatch ic b s g k
      end
  | Star a =>
      (fix loop (n : nat) (s : text) (g : groups) {struct n} : option groups :=
         match n with
         | O => k s g
         | S n' =>
             match rmatch ic a s g
                     (fun s1 g1 => if (length s1 <? length s)%nat
                                   then loop n' s1 g1 else None) with
             | Some m => Some m
             | None => k s g
             end
         end) (length s) s g
  | LazyStar a =>
      (fix loop (n : nat) (s : text) (g : groups) {struct n} : option groups :=
         match n with
         | O => k s g
         | S n' =>
             match k s g with
             | Some m => Some m
             | None =>
                 rmatch ic a s g
                   (fun s1 g1 => if (length s1 <? length s)%nat
                                 then loop n' s1 g1 else None)
             end
         end) (length s) s g
  | Group a => rmatch ic a s g (fun s1 _ => k s1 (Some (consumed s s1)))
  | Eol =>
      match s with
      | [] => k s g
      | [c] => if ascii_eqb c line_feed then k s g else None
      | _ => None
      end
  | Eps => k s g
  end.

(** [re.match(r, s)]: the group of the match at the front of [s]. *)
Definition match_here (ic : bool) (r : regex) (s : text) : option groups :=
  rmatch ic r s None (fun _ g => Some g).

(** [re.search(r, s)]: the leftmost position where [r] matches. *)
Fixpoint search (ic : bool) (r : regex) (s : text) : option groups :=
  match match_here ic r s with
  | Some g => Some g
  | None =>
      match s with
      | [] => None
      | _ :: s' => search ic r s'
      end
  end.

(** [m.group(1)] *)
Definition group1 (m : groups) : text := default [] m.

End Re.
Import Re.

(** ** Cells, values and rows *)

(** A cell of the table read from the CSV file: text, or missing. *)
Inductive cell : Type :=
| CStr (s : list ascii)
| CNaN.

(** [pd.isna(c)] *)
Definition pd_isna (c : cell) : bool :=
  match c with CNaN => true | CStr _ => false end.

(** [str(c)] *)
Definition py_str (c : cell) : text :=
  match c with
  | CStr s => s
  | CNaN => str "nan"
  end.

(** A computed value: an [int], a [float], [np.nan] or a [str]. *)
Inductive value : Type :=
| VInt (z : Z)
| VFloat (q : Q)
| VNaN
| VStr (s : list ascii).

(** [1 if b else 0], [int(b)] *)
Definition flag (b : bool) : value := VInt (if b then 1 else 0).

(** A [pd.Series] / [dict] with string keys, in insertion order. *)
Definition series : Type := list (string * value).

Fixpoint series_get (k : string) (s : series) : option value :=
  match s with
  | [] => None
  | (k', v) :: s' => if String.eqb k k' then Some v else series_get k s'
  end.

Definition keys (s : series) : list string := map fst s.

(** The fields of a record that [extract_everything] reads. *)
Record row : Type := {
  affected_html_elements : cell;
  supplementary_information : cell;
  violation_name : cell;
  wcag_reference : cell
}.

(** ** [float()] on the text a numeric group captured

    [float] is only ever applied to a match of [[0-9.]+]; on such text it
    accepts digits with at most one point and at least one digit, and
    raises [ValueError] otherwise. *)

Fixpoint break_point (s : text) : text * option (list ascii) :=
  match s with
  | [] => ([], None)
  | c :: s' =>
      if ascii_eqb c "."
      then ([], Some s')
      else let '(a, b) := break_point s' in (c :: a, b)
  end.

Fixpoint digits_value (s : text) (acc : Z) : option Z :=
  match s with
  | [] => Some acc
  | c :: s' =>
      if is_digit c
      then digits_value s' (10 * acc + (Z.of_N (code c) - 48))
      else None
  end.

Definition py_float (s : text) : result Q :=
  let '(ip, fp) := break_point s in
  let fp := default [] fp in
  match digits_value (ip ++ fp) 0 with
  | Some n =>
      match ip ++ fp with
      | [] => Raise ValueError
      | _ => Ok (n # Z.to_pos (10 ^ len fp))
      end
  | None => Raise ValueError
  end.

(** ** [AccessibilityFeatureExtractor] *)

Definition double_quote : ascii := ascii_of_N 34.
Definition single_quote : ascii := ascii_of_N 39.

(** The class of the two quote characters, written Q below. *)
Definition quote_class : regex := Alt (Lit double_quote) (Lit single_quote).
(** [a-zA-Z0-9] *)
Definition alnum_class : regex :=
  Alt (Range "a" "z") (Alt (Range "A" "Z") (Range "0" "9")).
(** [0-9.] *)
Definition number_class : regex := Alt (Range "0" "9") (Lit ".").

(** [r'<([a-zA-Z0-9]+)'] *)
Definition tag_pat : regex := Seq (Lit "<") (Group (Plus alnum_class)).

(** [r'alt=Q(.*?)Q'] *)
Definition alt_pat : regex :=
  Seq (Lits (str "alt="))
      (Seq quote_class (Seq (Group (LazyStar Any)) quote_class)).

(** [r'(image of|photo of|picture of|link to|click here|button|graphic of)'] *)
Definition redundant_pat : regex :=
  Group (Alt (Lits (str "image of"))
        (Alt (Lits (str "photo of"))
        (Alt (Lits (str "picture of"))
        (Alt (Lits (str "link to"))
        (Alt (Lits (str "click here"))
        (Alt (Lits (str "button"))
             (Lits (str "graphic of")))))))).

Definition placeholder_set : list (list ascii) :=
  [str "alt"; str "description"; str "label"; str "placeholder"; str "none";
   str "image"; str "spacer"; str "icon"; str "dot"].

(** [contrastratio':\s*([0-9.]+)] *)
Definition cr_pat : regex :=
  Seq (Lits (str "contrastratio':"))
      (Seq (Star Space) (Group (Plus number_class))).

(** [fontsize':\s*Q([0-9.]+)] *)
Definition fs_pat : regex :=
  Seq (Lits (str "fontsize':"))
      (Seq (Star Space) (Seq quote_class (Group (Plus number_class)))).

(** [r'\.(jpg|png|gif|jpeg|svg|webp)$'] *)
Definition filename_pat : regex :=
  Seq (Lit ".")
      (Seq (Group (Alt (Lits (str "jpg"))
                  (Alt (Lits (str "png"))
                  (Alt (Lits (str "gif"))
                  (Alt (Lits (str "jpeg"))
                  (Alt (Lits (str "svg"))
                       (Lits (str "webp"))))))))
           Eol).

(** [if m] for a match object *)
Definition matched (m : option groups) : bool :=
  match m with Some _ => true | None => false end.

(** Lines 37-38: the tag name. *)
Definition html_tag (html : text) : text :=
  match search false tag_pat html with
  | Some m => group1 m
  | None => str "unknown"
  end.

(** Lines 41-42: the alt text. *)
Definition alt_match (html : text) : option groups :=
  search false alt_pat html.
Definition alt_content (html : text) : text :=
  match alt_match html with
  | Some m => strip (group1 m)
  | None => []
  end.

(** Lines 77-78: [float(m.group(1)) if m else np.nan] *)
Definition float_or_nan (m : option groups) : result value :=
  match m with
  | Some g => VFloat <$> py_float (group1 g)
  | None => Ok VNaN
  end.

(** Line 84 *)
Definition wcag_level (wcag : text) : Z :=
  if contains (str "AAA") wcag then 3
  else if contains (str "AA") wcag then 2
  else if contains (str "A") wcag then 1
  else 0.

Definition extract_everything (r : row) : result series :=
  let html := lower (py_str (affected_html_elements r)) in
  let supp := lower (py_str (supplementary_information r)) in
  let v_name := lower (py_str (violation_name r)) in
  let wcag := upper (py_str (wcag_reference r)) in
  let tag := html_tag html in
  let alt_content := alt_content html in
  let cr_match := search false cr_pat supp in
  let fs_match := search false fs_pat supp in
  contrast_ratio ← float_or_nan cr_match;
  font_size ← float_or_nan fs_match;
  mret
    [ ("html_tag", VStr tag);
      ("snippet_len", VInt (len html));
      ("snippet_word_count", VInt (len (split html)));
      ("tag_count", VInt (count (str "<") html));
      ("word_count", VInt (len (split html)));
      ("is_button_or_link",
        flag (contains_any [str "<a"; str "<button"] html));
      ("has_id", flag (contains (str "id=") html));
      ("has_class", flag (contains (str "class=") html));
      ("has_role_attr", flag (contains (str "role=") html));
      ("has_tabindex", flag (contains (str "tabindex=") html));
      ("is_img_or_svg", flag (contains_any [str "<img"; str "<svg"] html));
      ("has_alt_attr", flag (contains (str "alt=") html));
      ("is_alt_empty",
        flag (text_eqb alt_content [] && contains (str "alt=") html));
      ("alt_word_count", VInt (len (split alt_content)));
      ("alt_is_generic",
        flag (existsb (text_eqb alt_content) placeholder_set));
      ("alt_is_filename",
        flag (matched (search false filename_pat alt_content)));
      ("has_redundant_prefix",
        flag (matched (search false redundant_pat html)));
      ("is_aria_hidden",
        flag (contains (str "aria-hidden=" ++ [double_quote] ++ str "true"
                          ++ [double_quote]) html));
      ("has_aria_label", flag (contains (str "aria-label=") html));
      ("contrast_ratio", contrast_ratio);
      ("font_size", font_size);
      ("is_aria_related",
        flag (contains (str "aria") v_name || contains (str "aria") supp));
      ("aria_density", VInt (count (str "aria-") supp));
      ("supp_info_len", VInt (len supp));
      ("wcag_level", VInt (wcag_level wcag)) ]%string.

(** *** [extract_html_features]

    The tree BeautifulSoup builds: tags with their attributes and children,
    and the strings between them, each string of one of the library's
    string classes.  The parser itself belongs to the library and is a
    parameter of the extractor: given the markup it returns a tree or
    raises ([html.parser] refuses some markup, which BeautifulSoup reports
    as [ParserRejectedMarkup]). *)

Inductive string_class : Type :=
| NavigableString
| CData
| Comment
| Declaration
| Doctype
| ProcessingInstruction
| Stylesheet
| Script
| TemplateString
| RubyTextString
| RubyParenthesisString.

Inductive node : Type :=
| Tag (name : list ascii) (attrs : list (list ascii * list ascii))
      (children : list node)
| StringNode (cls : string_class) (s : list ascii).

Definition soup : Type := list node.

(** The tags below a node, the node included, in document order. *)
Fixpoint tags_of (n : node) : list node :=
  match n with
  | Tag _ _ children => n :: flat_map tags_of children
  | StringNode _ _ => []
  end.

Definition same_class (a b : string_class) : bool :=
  match a, b with
  | NavigableString, NavigableString
  | CData, CData
  | Comment, Comment
  | Declaration, Declaration
  | Doctype, Doctype
  | ProcessingInstruction, ProcessingInstruction
  | Stylesheet, Stylesheet
  | Script, Script
  | TemplateString, TemplateString
  | RubyTextString, RubyTextString
  | RubyParenthesisString, RubyParenthesisString => true
  | _, _ => false
  end.

(** The tree builder's [string_containers]: the tags whose strings are of
    a class of their own. *)
Definition string_containers (name : list ascii) : option string_class :=
  if text_eqb name (str "rt") then Some RubyTextString
  else if text_eqb name (str "rp") then Some RubyParenthesisString
  else if text_eqb name (str "style") then Some Stylesheet
  else if text_eqb name (str "script") then Some Script
  else if text_eqb name (str "template") then Some TemplateString
  else None.

(** The classes [get_text] collects when it is called without [types]:
    for a string container its own class, for any other tag
    [NavigableString] and [CData]. *)
Definition default_string_types (cls : string_class) : bool :=
  same_class cls NavigableString || same_class cls CData.
Definition interesting_string_types (name : list ascii)
  : string_class → bool :=
  match string_containers name with
  | Some c => fun cls => same_class cls c
  | None => default_string_types
  end.

(** [_all_strings(types=...)]: the strings below a node whose class is one
    of [types], in document order. *)
Fixpoint all_strings (types : string_class → bool) (n : node)
  : list (list ascii) :=
  match n with
  | Tag _ _ children => flat_map (all_strings types) children
  | StringNode cls s => if types cls then [s] else []
  end.

(** [t.get_text()]: the strings of the interesting classes below [t],
    joined.  So the text of a script is no part of the text of the tags
    around it, and it is the text of the script tag itself.  Called on a
    string, it gives the string if its class is a default one. *)
Definition get_text (n : node) : list ascii :=
  match n with
  | Tag name _ children =>
      concat (flat_map (all_strings (interesting_string_types name)) children)
  | StringNode cls s => if default_string_types cls then s else []
  end.

Definition tag_name (n : node) : list ascii :=
  match n with Tag name _ _ => name | StringNode _ _ => [] end.
Definition tag_attrs (n : node) : list (list ascii * list ascii) :=
  match n with Tag _ attrs _ => attrs | StringNode _ _ => [] end.

(** [soup.find_all()] *)
Definition find_all (sp : soup) : list node := flat_map tags_of sp.

(** [soup.find_all(name)], [soup.find_all([name, ...])] *)
Definition find_all_named (names : list (list ascii)) (sp : soup) : list node :=
  List.filter (fun n => existsb (text_eqb (tag_name n)) names) (find_all sp).

(** [soup.find(...)]: the first result of the search, or [None]. *)
Definition find_named (names : list (list ascii)) (sp : soup) : option node :=
  head (find_all_named names sp).

(** [soup.find(attrs={a: True})] *)
Definition find_with_attr (a : list ascii) (sp : soup) : option node :=
  head (List.filter
          (fun n => existsb (fun kv => text_eqb (fst kv) a) (tag_attrs n))
          (find_all sp)).

Definition is_not_None {A : Type} (o : option A) : bool :=
  match o with Some _ => true | None => false end.

(** Truth value of a list. *)
Definition truthy {A : Type} (l : list A) : bool :=
  match l with [] => false | _ => true end.

Definition sum_Z (l : list Z) : Z := fold_right Z.add 0 l.

(** [np.mean(l)]: the sum over the number of items; [nan] for no item,
    where the division is by zero. *)
Definition np_mean (l : list Z) : value :=
  match length l with
  | O => VNaN
  | S _ => VFloat (sum_Z l # Pos.of_nat (length l))
  end.

(** Lines 89-107.  [html_parser markup] is
    [BeautifulSoup(markup, "html.parser")]; when it raises, nothing
    catches the exception. *)
Definition extract_html_features
    (html_parser : list ascii → result soup) (html : cell) : result series :=
  let html := if pd_isna html then CStr [] else html in
  sp ← html_parser (py_str html);
  mret
  [ ("num_links", VInt (len (find_all_named [str "a"] sp)));
    ("num_images", VInt (len (find_all_named [str "img"; str "svg"] sp)));
    ("num_buttons", VInt (len (find_all_named [str "button"] sp)));
    ("num_inputs", VInt (len (find_all_named [str "input"] sp)));
    ("num_lists",
      VInt (len (find_all_named [str "ul"; str "ol"; str "li"] sp)));
    ("num_headings",
      VInt (len (find_all_named
                   [str "h1"; str "h2"; str "h3"; str "h4"; str "h5";
                    str "h6"] sp)));
    ("has_form", flag (is_not_None (find_named [str "form"] sp)));
    ("num_divs", VInt (len (find_all_named [str "div"] sp)));
    ("num_spans", VInt (len (find_all_named [str "span"] sp)));
    ("avg_text_len_per_tag",
      if truthy (find_all sp)
      then np_mean (map (fun t => len (get_text t)) (find_all sp))
      else VInt 0);
    ("has_inline_style", flag (is_not_None (find_with_attr (str "style") sp)));
    ("has_script_or_style",
      flag (is_not_None (find_named [str "script"; str "style"] sp))) ]%string.

(** ** The assembled table and the training data *)

Module Frame.

(** A [pd.DataFrame]: its columns in order, each a label and the values
    of the rows.  Labels may repeat, as pandas lets them. *)
Notation table := (list (string * list value)) (only parsing).

(** [df.columns] *)
Definition columns (df : table) : list string := map fst df.

(** [df[k]] for a list of labels [ks]: for each label in turn, every column
    that carries it; [KeyError] for a label no column carries. *)
Definition select (k : string) (df : table) : table :=
  filter (fun c => fst c = k) df.

Fixpoint getitem_list (df : table) (ks : list string) : result table :=
  match ks with
  | [] => Ok []
  | k :: ks' =>
      match select k df with
      | [] => Raise (KeyError k)
      | cols => rest ← getitem_list df ks'; mret (cols ++ rest)
      end
  end.

(** [df[k]] for one label carried by one column. *)
Definition getitem (df : table) (k : string) : result (list value) :=
  match select k df with
  | (_, col) :: _ => Ok col
  | [] => Raise (KeyError k)
  end.

(** [df.fillna(v)] *)
Definition fill (v x : value) : value :=
  match x with VNaN => v | _ => x end.
Definition fillna (v : value) (df : table) : table :=
  map (fun c => (fst c, map (fill v) (snd c))) df.


End Frame.
Import Frame.

(** Lines 161-177 *)
Definition features : list string :=
  [ "tag_enc"; "snippet_len"; "word_count"; "tag_count";
    "is_button_or_link"; "is_img_or_svg"; "has_alt_attr"; "has_aria_label";
    "has_role_attr"; "is_aria_related"; "contrast_ratio"; "font_size";
    "num_links"; "num_images"; "num_buttons"; "num_inputs"; "num_lists";
    "num_headings"; "has_form"; "num_divs"; "num_spans";
    "avg_text_len_per_tag"; "has_inline_style"; "has_script_or_style"
  ]%string.

(** Line 180: [[f for f in features if f in df.columns]] *)
Definition available_features (df : table) : list string :=
  filter (fun f => f ∈ columns df) features.

(** Line 183 *)
Definition feature_table (df : table) : result table :=
  fillna (VInt 0) <$> getitem_list df (available_features df).

(** Lines 187-188 *)
Definition score_mapping : gmap Z Z := {[ 2 := 0; 3 := 1; 4 := 2; 5 := 3 ]}.
Definition reverse_mapping : gmap Z Z := {[ 0 := 2; 1 := 3; 2 := 4; 3 := 5 ]}.

(** The persisted dictionary, lines 225-232, without the encoders'
    class lists. *)
Record artifacts : Type := {
  feature_names : list string;
  art_score_mapping : gmap Z Z;
  art_reverse_mapping : gmap Z Z
}.

Definition make_artifacts (df : table) : artifacts :=
  {| feature_names := available_features df;
     art_score_mapping := score_mapping;
     art_reverse_mapping := reverse_mapping |}.

(** [s.map(d)] for a dictionary [d]: a value that is no key of [d] becomes
    [NaN]; the call itself does not raise.  A float equal to an integer key
    finds that key. *)
Definition map_key (d : gmap Z Z) (z : Z) : value :=
  match d !! z with Some c => VInt c | None => VNaN end.
Definition map_value (d : gmap Z Z) (v : value) : value :=
  match v with
  | VInt z => map_key d z
  | VFloat q =>
      if Qeq_bool q (inject_Z (Qfloor q)) then map_key d (Qfloor q) else VNaN
  | _ => VNaN
  end.
Definition Series_map (d : gmap Z Z) (s : list value) : result (list value) :=
  Ok (map (map_value d) s).

(** Lines 150-154: the URL flags.  [str.contains] compiles its pattern as
    a regular expression ([regex=True] is its default), in which the point
    stands for any character. *)
Fixpoint re_compile (pat : text) : regex :=
  match pat with
  | [] => Eps
  | c :: pat' =>
      let r := if ascii_eqb c "." then Any else Lit c in
      match pat' with
      | [] => r
      | _ => Seq r (re_compile pat')
      end
  end.

(** [col.str.contains(pat, case=case, na=na)] *)
Definition str_contains (pat : text) (case na : bool) (col : list cell)
  : list bool :=
  map (fun c => match c with
                | CStr s => matched (search (negb case) (re_compile pat) s)
                | CNaN => na
                end) col.

(** [.astype(int)] *)
Definition astype_int (col : list bool) : list value := map flag col.

Definition is_gov (web_URL : list cell) : list value :=
  astype_int (str_contains (str ".gov") false false web_URL).
Definition is_edu (web_URL : list cell) : list value :=
  astype_int (str_contains (str ".edu") false false web_URL).
Definition is_org (web_URL : list cell) : list value :=
  astype_int (str_contains (str ".org") false false web_URL).

(** ** The split, remap and oversample steps (lines 190-203)

    The partitions are objects in a store and the local variables of
    [train_and_save_model] hold references to them.  The two library calls
    are parameters: [train_test_split] returns four new objects, and
    [fit_resample] receives its two arguments by reference, so besides
    returning two new objects it may leave other contents in the arguments
    it was given. *)

Module Pipeline.

Inductive obj : Type :=
| OFrame (t : table)
| OSeries (s : list value).

Definition M (A : Type) : Type := gmap nat obj → result (A * gmap nat obj).

#[global] Instance M_ret : MRet M := fun _ a h => Ok (a, h).
#[global] Instance M_bind : MBind M := fun _ _ f m h =>
  match m h with
  | Ok (a, h') => f a h'
  | Raise e => Raise e
  end.

Definition lift {A : Type} (r : result A) : M A := fun h =>
  match r with
  | Ok a => Ok (a, h)
  | Raise e => Raise e
  end.

(** A new object gets a reference that is not in use. *)
Definition new (o : obj) : M nat := fun h =>
  let l := fresh (dom h) in Ok (l, <[l := o]> h).

Definition write (l : nat) (o : obj) : M unit := fun h =>
  Ok (tt, <[l := o]> h).

Definition read_frame (l : nat) : M table := fun h =>
  match h !! l with
  | Some (OFrame t) => Ok (t, h)
  | _ => Raise ValueError
  end.

Definition read_series (l : nat) : M (list value) := fun h =>
  match h !! l with
  | Some (OSeries s) => Ok (s, h)
  | _ => Raise ValueError
  end.

(** [train_test_split(X, y, test_size=0.2, random_state=42, stratify=y)] *)
Definition splitter : Type :=
  table → list value → result (table * table * list value * list value).

(** [smote.fit_resample(X, y)]: what the call leaves in [X] and [y], and
    the pair it returns. *)
Definition resampler : Type :=
  table → list value →
  result ((table * list value) * (table * list value)).

Record split_vars : Type := {
  X_train : nat;
  X_test : nat;
  y_train : nat;
  y_test : nat
}.

Record balance_vars : Type := {
  y_train_mapped : nat;
  y_test_mapped : nat;
  X_train_smote : nat;
  y_train_smote : nat
}.

(** Lines 192-194 *)
Definition split_step (train_test_split : splitter)
    (X : table) (y : list value) : M split_vars :=
  parts ← lift (train_test_split X y);
  let '(Xtr, Xte, ytr, yte) := parts in
  a ← new (OFrame Xtr);
  b ← new (OFrame Xte);
  c ← new (OSeries ytr);
  d ← new (OSeries yte);
  mret {| X_train := a; X_test := b; y_train := c; y_test := d |}.

(** [ys.map(d)] on a stored series: the result is a new series. *)
Definition map_step (d : gmap Z Z) (ys : nat) : M nat :=
  s ← read_series ys;
  s' ← lift (Series_map d s);
  new (OSeries s').

(** Line 203 *)
Definition smote_step (fit_resample : resampler) (X y : nat) : M (nat * nat) :=
  Xv ← read_frame X;
  yv ← read_series y;
  r ← lift (fit_resample Xv yv);
  let '((X', y'), (Xr, yr)) := r in
  _ ← write X (OFrame X');
  _ ← write y (OSeries y');
  a ← new (OFrame Xr);
  b ← new (OSeries yr);
  mret (a, b).

(** Lines 197-203 *)
Definition balance_step (fit_resample : resampler) (v : split_vars)
  : M balance_vars :=
  ytm ← map_step score_mapping (y_train v);
  yem ← map_step score_mapping (y_test v);
  r ← smote_step fit_resample (X_train v) ytm;
  mret {| y_train_mapped := ytm; y_test_mapped := yem;
          X_train_smote := fst r; y_train_smote := snd r |}.

(** The class counts of a stored label series: how often each label occurs. *)
Definition count_label (z : Z) (s : list value) : nat :=
  length (List.filter (fun v => match v with
                                | VInt z' => Z.eqb z z'
                                | _ => false
                                end) s).

End Pipeline.
Import Pipeline.
(** ** More of [train_and_save_model]: cleaning, impact, URL shape *)

(** Lines 127-128: [df[col].str.strip().str.lower()].  The string methods
    leave a missing cell missing. *)
Definition str_strip (c : cell) : cell :=
  match c with
  | CStr s => CStr (strip s)
  | CNaN => CNaN
  end.
Definition str_lower (c : cell) : cell :=
  match c with
  | CStr s => CStr (lower s)
  | CNaN => CNaN
  end.
Definition clean_cell (c : cell) : cell := str_lower (str_strip c).

(** Line 131 *)
Definition impact_map : gmap (list ascii) Z :=
  {[ str "minor" := 1; str "moderate" := 2; str "serious" := 3;
     str "critical" := 4 ]}.

(** Line 132: [.map(impact_map)], where [None] stands for the [NaN] of a
    cell that is no key, followed by [.fillna(1)]. *)
Definition map_impact (c : cell) : option Z :=
  match c with
  | CStr s => impact_map !! s
  | CNaN => None
  end.
Definition impact_numeric (c : cell) : Z := default 1 (map_impact c).

(** Line 133: [impact_numeric / 4.0] *)
Definition severity_score (c : cell) : Q := impact_numeric c # 4.

(** Lines 150-151: [.str.count('/') - 2] and [.str.len()]; both are [NaN]
    for a missing URL. *)
Definition url_depth (c : cell) : value :=
  match c with
  | CStr s => VInt (count (str "/") s - 2)
  | CNaN => VNaN
  end.
Definition url_len (c : cell) : value :=
  match c with
  | CStr s => VInt (len s)
  | CNaN => VNaN
  end.

(** Line 212: [len(y_train.unique())] *)
Definition num_class (y : list Z) : nat := length (remove_dups y).

(** ** [LabelEncoder] on strings (lines 157-158, 229-230)

    [fit] keeps the sorted distinct values as [classes_]; [transform] gives
    each value its position in [classes_] and raises [ValueError] for a
    value that is not there. *)

Module LabelEncoder.

(** [a < b] on [str]: the order of the character codes, a proper prefix
    first. *)
Fixpoint text_ltb (a b : list ascii) : bool :=
  match a, b with
  | _, [] => false
  | [], _ :: _ => true
  | x :: a', y :: b' =>
      (code x <? code y)%N || ((code x =? code y)%N && text_ltb a' b')
  end.

(** One more value into a sorted list of distinct values. *)
Fixpoint insert (x : list ascii) (l : list (list ascii)) : list (list ascii) :=
  match l with
  | [] => [x]
  | y :: l' =>
      if text_ltb x y then x :: l
      else if text_eqb x y then l
      else y :: insert x l'
  end.

(** [classes_] after [fit(values)] *)
Definition fit (values : list (list ascii)) : list (list ascii) :=
  foldr insert [] values.

Fixpoint index_of (x : list ascii) (classes : list (list ascii)) : option nat :=
  match classes with
  | [] => None
  | y :: classes' =>
      if text_eqb x y then Some O else S <$> index_of x classes'
  end.

Fixpoint transform (classes values : list (list ascii)) : result (list nat) :=
  match values with
  | [] => Ok []
  | v :: values' =>
      match index_of v classes with
      | Some i => codes ← transform classes values'; mret (i :: codes)
      | None => Raise ValueError
      end
  end.

Definition fit_transform (values : list (list ascii)) : result (list nat) :=
  transform (fit values) values.

End LabelEncoder.

(** [a < b] as a proposition. *)
Definition text_lt (a b : list ascii) : Prop :=
  LabelEncoder.text_ltb a b = true.

(** Lines 157-158: the two encoders that see [.astype(str)] columns. *)
Definition violation_id_enc (violation_name : list cell) : result (list nat) :=
  LabelEncoder.fit_transform (map py_str violation_name).
Definition tag_enc (html_tag : list (list ascii)) : result (list nat) :=
  LabelEncoder.fit_transform html_tag.

(** ** Direct scans, to compare the patterns with

    What each pattern of the extractor finds, written as a scan of the text
    without regular expressions. *)

(** The longest run of characters with [p] at the front of [s], and what
    follows it. *)
Fixpoint take_run (p : ascii → bool) (s : list ascii) : list ascii :=
  match s with
  | c :: s' => if p c then c :: take_run p s' else []
  | [] => []
  end.
Fixpoint drop_run (p : ascii → bool) (s : list ascii) : list ascii :=
  match s with
  | c :: s' => if p c then drop_run p s' else s
  | [] => []
  end.

Definition is_alnum (c : ascii) : bool :=
  is_lower c || (is_upper c || is_digit c).
Definition is_quote (c : ascii) : bool :=
  ascii_eqb double_quote c || ascii_eqb single_quote c.
Definition is_number_char (c : ascii) : bool :=
  is_digit c || ascii_eqb "." c.
Definition not_line_feed (c : ascii) : bool := negb (ascii_eqb c line_feed).

(** A pattern that matches one character, those with [p]. *)
Definition char_class (cls : regex) (p : ascii → bool) : Prop :=
  ∀ s g k,
    rmatch false cls s g k =
    match s with
    | c :: s' => if p c then k s' g else None
    | [] => None
    end.

(** The iteration inside [rmatch] for a starred and a lazily starred
    expression [a], [step] being the matcher of [a]. *)
Definition star_loop
    (step : list ascii → groups → (list ascii → groups → option groups)
            → option groups)
    (k : list ascii → groups → option groups)
  : nat → list ascii → groups → option groups :=
  fix loop (n : nat) (s : list ascii) (g : groups) {struct n} :=
    match n with
    | O => k s g
    | S n' =>
        match step s g (fun s1 g1 => if (length s1 <? length s)%nat
                                     then loop n' s1 g1 else None) with
        | Some m => Some m
        | None => k s g
        end
    end.

Definition lazy_loop
    (step : list ascii → groups → (list ascii → groups → option groups)
            → option groups)
    (k : list ascii → groups → option groups)
  : nat → list ascii → groups → option groups :=
  fix loop (n : nat) (s : list ascii) (g : groups) {struct n} :=
    match n with
    | O => k s g
    | S n' =>
        match k s g with
        | Some m => Some m
        | None =>
            step s g (fun s1 g1 => if (length s1 <? length s)%nat
                                   then loop n' s1 g1 else None)
        end
    end.

(** A greedy and a lazy run of one-character matches followed by [k]. *)
Fixpoint star_class (p : ascii → bool)
    (k : list ascii → groups → option groups)
    (s : list ascii) (g : groups) : option groups :=
  match s with
  | c :: s' =>
      if p c
      then match star_class p k s' g with
           | Some m => Some m
           | None => k s g
           end
      else k s g
  | [] => k s g
  end.

Fixpoint lazy_class (p : ascii → bool)
    (k : list ascii → groups → option groups)
    (s : list ascii) (g : groups) : option groups :=
  match k s g with
  | Some m => Some m
  | None =>
      match s with
      | c :: s' => if p c then lazy_class p k s' g else None
      | [] => None
      end
  end.

(** An opening angle bracket and the name after it, at the front of [s]. *)
Definition tag_here (s : list ascii) : option (list ascii) :=
  match s with
  | c0 :: c1 :: t =>
      if ascii_eqb "<" c0 && is_alnum c1
      then Some (c1 :: take_run is_alnum t)
      else None
  | _ => None
  end.

(** The text up to the next quote character, if no line feed comes
    first. *)
Fixpoint quoted_value (s : list ascii) : option (list ascii) :=
  match s with
  | [] => None
  | c :: s' =>
      if is_quote c then Some []
      else if ascii_eqb c line_feed then None
      else (fun v => c :: v) <$> quoted_value s'
  end.

(** [alt=], a quote and a quoted value at the front of [s]. *)
Definition alt_here (s : list ascii) : option (list ascii) :=
  if startswith (str "alt=") s
  then match drop 4 s with
       | q :: t => if is_quote q then quoted_value t else None
       | [] => None
       end
  else None.

(** A run of digits and points at the front of [s]. *)
Definition number_here (s : list ascii) : option (list ascii) :=
  match s with
  | c :: t =>
      if is_number_char c then Some (c :: take_run is_number_char t) else None
  | [] => None
  end.

(** The contrast ratio key, white space and a number at the front of [s];
    the font size key, white space, a quote and a number. *)
Definition cr_here (s : list ascii) : option (list ascii) :=
  if startswith (str "contrastratio':") s
  then number_here (drop_run isspace (drop 15 s))
  else None.
Definition fs_here (s : list ascii) : option (list ascii) :=
  if startswith (str "fontsize':") s
  then match drop_run isspace (drop 10 s) with
       | q :: t => if is_quote q then number_here t else None
       | [] => None
       end
  else None.

(** The first position of [s] where [here] finds something. *)
Fixpoint first_match (here : list ascii → option (list ascii))
    (s : list ascii) : option (list ascii) :=
  match here s with
  | Some v => Some v
  | None =>
      match s with
      | [] => None
      | _ :: s' => first_match here s'
      end
  end.

(** The phrases of [redundant_pat] and the extensions of the file name
    pattern. *)
Definition redundant_phrases : list (list ascii) :=
  [str "image of"; str "photo of"; str "picture of"; str "link to";
   str "click here"; str "button"; str "graphic of"].
Definition image_extensions : list (list ascii) :=
  [str "jpg"; str "png"; str "gif"; str "jpeg"; str "svg"; str "webp"].

(** The alternation of literal texts. *)
Fixpoint Alts (ps : list (list ascii)) : regex :=
  match ps with
  | [] => Eps
  | [p] => Lits p
  | p :: ps' => Alt (Lits p) (Alts ps')
  end.

(** Somewhere in [url], a character that is no line feed is followed by
    the letters [w] in either case. *)
Definition point_then (w url : list ascii) : Prop :=
  ∃ pre x t post,
    url = pre ++ x :: t ++ post ∧ x ≠ line_feed ∧ lower t = w.

(** The length of all the strings of the tree, whatever their class:
    those of scripts, style sheets and comments are counted too. *)
Definition any_class (cls : string_class) : bool := true.
Definition total_text (sp : soup) : Z :=
  len (concat (flat_map (all_strings any_class) sp)).

(** The keys of the structural features that are counts, and those that
    are flags. *)
Definition html_count_keys : list string :=
  [ "num_links"; "num_images"; "num_buttons"; "num_inputs"; "num_lists";
    "num_headings"; "num_divs"; "num_spans" ]%string.
Definition html_flag_keys : list string :=
  [ "has_form"; "has_inline_style"; "has_script_or_style" ]%string.

(** The keys of a feature row, lines 54-84. *)
Definition markup_feature_keys : list string :=
  [ "html_tag"; "snippet_len"; "snippet_word_count"; "tag_count";
    "word_count"; "is_button_or_link"; "has_id"; "has_class";
    "has_role_attr"; "has_tabindex"; "is_img_or_svg"; "has_alt_attr";
    "is_alt_empty"; "alt_word_count"; "alt_is_generic"; "alt_is_filename";
    "has_redundant_prefix"; "is_aria_hidden"; "has_aria_label";
    "contrast_ratio"; "font_size"; "is_aria_related"; "aria_density";
    "supp_info_len"; "wcag_level" ]%string.

(** ** Predicates and sample inputs of the properties *)

(** The text [hay] has [needle] inside. *)
Definition has_substring (needle hay : list ascii) : Prop :=
  ∃ pre post, hay = pre ++ needle ++ post.

(** A record whose metadata names a contrast ratio that is no number. *)
Definition malformed_ratio_row : row :=
  {| affected_html_elements := CStr (str "<p class='note'>text</p>");
     supplementary_information :=
       CStr (str "{'fgColor': '#777', 'contrastRatio': 4.5.1}");
     violation_name := CStr (str "color-contrast");
     wcag_reference := CStr (str "WCAG 2.1 AA") |}.

(** The fragment of the spec's example: an image with an empty alt. *)
Definition img_alt_empty : list ascii :=
  str "<img alt=" ++ [double_quote; double_quote] ++ str ">".

Definition img_alt_empty_row : row :=
  {| affected_html_elements := CStr img_alt_empty;
     supplementary_information := CStr (str "{'contrastRatio': 4.51}");
     violation_name := CStr (str "image-alt");
     wcag_reference := CStr (str "WCAG 2.1 A") |}.

Definition img_alt_empty_features : series :=
  Eval vm_compute in
    match extract_everything img_alt_empty_row with
    | Ok fv => fv
    | Raise _ => []
    end.

Definition html_feature_keys : list string :=
  [ "num_links"; "num_images"; "num_buttons"; "num_inputs"; "num_lists";
    "num_headings"; "has_form"; "num_divs"; "num_spans";
    "avg_text_len_per_tag"; "has_inline_style"; "has_script_or_style"
  ]%string.

Definition zero_features : series :=
  map (fun k => (k, VInt 0)) html_feature_keys.

Definition text_lengths (sp : soup) : list Z :=
  map (fun t => len (get_text t)) (find_all sp).

(** The tree of the markup of a division that holds a script and the
    text hi. *)
Definition script_tree : soup :=
  [ Tag (str "div") []
      [ Tag (str "script") [] [StringNode Script (str "var a;")];
        StringNode NavigableString (str "hi") ] ].

(** What [BeautifulSoup(markup, "html.parser")] does on the markups of the
    examples, under Python 3.11: the empty text gives the empty tree, a
    paragraph gives one tag with its string, and a marked section with an
    unknown keyword is refused by [html.parser].  The samples say nothing
    of any other markup; the empty tree stands in for it. *)
Definition html_parser_samples (markup : list ascii) : result soup :=
  if text_eqb markup [] then Ok []
  else if text_eqb markup (str "<p>hello</p>")
  then Ok [Tag (str "p") [] [StringNode NavigableString (str "hello")]]
  else if text_eqb markup (str "<![x]>") then Raise ParserRejectedMarkup
  else Ok [].




(** A step leaves the objects that exist alone, except those at [ls]. *)
Definition frame_except (ls : list nat) (h h' : gmap nat obj) : Prop :=
  ∀ l, l ∉ ls → is_Some (h !! l) → h' !! l = h !! l.

(** The labels of a series in the store. *)
Definition labels_at (h : gmap nat obj) (l : nat) : list value :=
  match h !! l with
  | Some (OSeries s) => s
  | _ => []
  end.

(** A splitter that takes the first row for the test and a resampler that
    doubles the training rows and empties the arguments it was given. *)
Definition first_row_split : splitter := fun X y =>
  Ok (map (fun c => (fst c, drop 1 (snd c))) X,
      map (fun c => (fst c, take 1 (snd c))) X,
      drop 1 y, take 1 y).

Definition doubling_resampler : resampler := fun X y =>
  Ok (([], []), (map (fun c => (fst c, snd c ++ snd c)) X, y ++ y)).

Definition demo_X : table :=
  [ ("tag_enc", [VInt 0; VInt 1; VInt 1]);
    ("snippet_len", [VInt 12; VInt 30; VInt 7]) ]%string.
Definition demo_y : list value := [VInt 5; VInt 2; VInt 3].

(** A character that is no line feed, followed by [a], [b], [c] in
    either case, at the front of [s]. *)
Definition point3_here (a b c : ascii) (s : list ascii) : bool :=
  match s with
  | x :: a' :: b' :: c' :: _ =>
      negb (ascii_eqb x line_feed) && same_char true a a'
      && same_char true b b' && same_char true c c'
  | _ => false
  end.

(** A heading without alt text or contrast data. *)
Definition heading_row : row :=
  {| affected_html_elements := CStr (str "<H2 class='t'>News <b>today</b></H2>");
     supplementary_information := CStr (str "{'role': 'heading', 'aria-level': 2}");
     violation_name := CStr (str "heading-order");
     wcag_reference := CStr (str "WCAG 2.1 AA") |}.

Definition heading_features : series :=
  Eval vm_compute in
    match extract_everything heading_row with
    | Ok fv => fv
    | Raise _ => []
    end.

(** An image whose alt text is a file name. *)
Definition logo_row : row :=
  {| affected_html_elements := CStr (str "<img src='x' alt=' Logo.PNG '>");
     supplementary_information := CStr (str "{}");
     violation_name := CStr (str "image-alt");
     wcag_reference := CStr (str "WCAG 2.1 A") |}.

Definition logo_features : series :=
  Eval vm_compute in
    match extract_everything logo_row with
    | Ok fv => fv
    | Raise _ => []
    end.

Ltac extract_ok H cr fs :=
  unfold extract_everything in H;
  destruct (float_or_nan (search false cr_pat _)) as [cr|] in H;
    [|discriminate H];
  destruct (float_or_nan (search false fs_pat _)) as [fs|] in H;
    [|discriminate H];
  injection H as <-.

(** * Properties *)

(** ** Python [str] on examples *)

Example lower_demo : lower (str "<IMG Alt=''>") = str "<img alt=''>".
Proof. reflexivity. Qed.
Example split_demo :
  split (str "  <a  href='x'>click here</a> ") =
  [str "<a"; str "href='x'>click"; str "here</a>"].
Proof. reflexivity. Qed.
Example strip_demo : strip (str "  a b	 ") = str "a b".
Proof. reflexivity. Qed.
Example count_demo : count (str "aria-") (str "aria-label aria-aria-x") = 3.
Proof. reflexivity. Qed.

(** ** Substring tests *)

Lemma ascii_eqb_eq (a b : ascii) : ascii_eqb a b = true ↔ a = b.
Proof. unfold ascii_eqb. apply Ascii.eqb_eq. Qed.

Lemma startswith_spec (p s : list ascii) :
  startswith p s = true ↔ ∃ post, s = p ++ post.
Proof.
  revert s. induction p as [|a p IH]; intros s; simpl.
  - split; [intros _; by exists s | done].
  - destruct s as [|b s]; simpl.
    + split; [done | intros [post H]; discriminate].
    + rewrite andb_true_iff, ascii_eqb_eq, IH. split.
      * intros [-> [post ->]]. by exists post.
      * intros [post H]. injection H as -> ->. eauto.
Qed.

Lemma contains_spec (needle hay : list ascii) :
  contains needle hay = true ↔ has_substring needle hay.
Proof.
  unfold has_substring. induction hay as [|c hay IH].
  - simpl. rewrite orb_false_r, startswith_spec. split.
    + intros [post H]. by exists [], post.
    + intros [pre [post H]]. destruct pre; [by exists post|discriminate].
  - cbn [contains]. rewrite orb_true_iff, startswith_spec, IH. split.
    + intros [[post H] | [pre [post H]]].
      * by exists [], post.
      * exists (c :: pre), post. by rewrite H.
    + intros [[|c' pre] [post H]].
      * left. by exists post.
      * right. injection H as -> ->. by exists pre, post.
Qed.

Lemma contains_false (needle hay : list ascii) :
  contains needle hay = false ↔ ¬ has_substring needle hay.
Proof.
  rewrite <- contains_spec. destruct (contains needle hay); split; congruence.
Qed.

(** ** The score dictionaries *)

Lemma score_mapping_lookup (x : Z) :
  score_mapping !! x =
  if bool_decide (2 ≤ x ≤ 5) then Some (x - 2) else None.
Proof.
  unfold score_mapping. rewrite !lookup_insert, lookup_singleton.
  repeat case_decide; subst; try reflexivity;
    case_bool_decide; try reflexivity; lia.
Qed.

Lemma reverse_mapping_lookup (c : Z) :
  reverse_mapping !! c =
  if bool_decide (0 ≤ c ≤ 3) then Some (c + 2) else None.
Proof.
  unfold reverse_mapping. rewrite !lookup_insert, lookup_singleton.
  repeat case_decide; subst; try reflexivity;
    case_bool_decide; try reflexivity; lia.
Qed.

(** C1. The score dictionary is the table 2->0, 3->1, 4->2, 5->3, the
    reverse dictionary is the table 0->2, 1->3, 2->4, 3->5, each is the
    inverse of the other, and looking a label up forward and then backward
    gives the label back for each of 2, 3, 4, 5, as looking a class index
    up backward and then forward does for each of 0, 1, 2, 3. *)
Theorem score_mapping_bijection :
  (∀ x c, score_mapping !! x = Some c ↔
          (x, c) ∈ [(2, 0); (3, 1); (4, 2); (5, 3)]) ∧
  (∀ c x, reverse_mapping !! c = Some x ↔
          (c, x) ∈ [(0, 2); (1, 3); (2, 4); (3, 5)]) ∧
  (∀ x c, score_mapping !! x = Some c ↔ reverse_mapping !! c = Some x) ∧
  Forall (fun x => score_mapping !! x ≫= (reverse_mapping !!.) = Some x)
         [2; 3; 4; 5] ∧
  Forall (fun c => reverse_mapping !! c ≫= (score_mapping !!.) = Some c)
         [0; 1; 2; 3].
Proof.
  split_and!.
  - intros x c. rewrite score_mapping_lookup. rewrite !elem_of_cons, elem_of_nil.
    case_bool_decide; split; intros H'; simplify_eq; try lia.
    + assert (x = 2 ∨ x = 3 ∨ x = 4 ∨ x = 5) as Hx by lia.
      destruct Hx as [-> | [-> | [-> | ->]]]; simpl; tauto.
    + destruct H' as [H' | [H' | [H' | [H' | []]]]]; simplify_eq; done.
    + destruct H' as [H' | [H' | [H' | [H' | []]]]]; simplify_eq; lia.
  - intros c x. rewrite reverse_mapping_lookup. rewrite !elem_of_cons, elem_of_nil.
    case_bool_decide; split; intros H'; simplify_eq; try lia.
    + assert (c = 0 ∨ c = 1 ∨ c = 2 ∨ c = 3) as Hc by lia.
      destruct Hc as [-> | [-> | [-> | ->]]]; simpl; tauto.
    + destruct H' as [H' | [H' | [H' | [H' | []]]]]; simplify_eq; done.
    + destruct H' as [H' | [H' | [H' | [H' | []]]]]; simplify_eq; lia.
  - intros x c. rewrite score_mapping_lookup, reverse_mapping_lookup.
    repeat case_bool_decide; split; intros H'; simplify_eq; try lia;
      f_equal; lia.
  - repeat constructor.
  - repeat constructor.
Qed.

(** C2, as the claim states it: a label outside 2..5 would make the
    forward mapping raise.  On the label 7 the mapping returns, and puts
    [NaN] in the row. *)
Lemma forward_outside_domain_returns :
  ¬ (2 ≤ 7 ≤ 5) ∧
  Series_map score_mapping [VInt 7] = Ok [VNaN] ∧
  raises (Series_map score_mapping [VInt 7]) = false.
Proof. split_and!; [lia | reflexivity | reflexivity]. Qed.

(** C2, amended: mapping the labels through the score dictionary never
    raises; it returns a series of the same length in which a label among
    2, 3, 4, 5 has become its class index and any other label has become
    [NaN]. *)
Theorem Series_map_never_raises (s : list value) :
  ∃ s', Series_map score_mapping s = Ok s' ∧
        length s' = length s ∧
        ∀ i x, s !! i = Some (VInt x) →
               s' !! i = Some (if bool_decide (2 ≤ x ≤ 5)
                               then VInt (x - 2) else VNaN).
Proof.
  exists (map (map_value score_mapping) s). split_and!.
  - reflexivity.
  - apply length_map.
  - intros i x Hi. change (map ?f ?l) with (f <$> l).
    rewrite list_lookup_fmap, Hi. simpl. unfold map_key.
    rewrite score_mapping_lookup. by case_bool_decide.
Qed.

(** ** The markup extractor *)

(** What a returned feature row holds under the keys the properties below
    read. *)
Lemma extract_everything_fields (r : row) (fv : series) :
  extract_everything r = Ok fv →
  let html := lower (py_str (affected_html_elements r)) in
  let wcag := upper (py_str (wcag_reference r)) in
  series_get "snippet_word_count" fv = Some (VInt (len (split html))) ∧
  series_get "word_count" fv = Some (VInt (len (split html))) ∧
  series_get "has_alt_attr" fv = Some (flag (contains (str "alt=") html)) ∧
  series_get "is_alt_empty" fv =
    Some (flag (text_eqb (alt_content html) []
                && contains (str "alt=") html)) ∧
  series_get "alt_word_count" fv =
    Some (VInt (len (split (alt_content html)))) ∧
  series_get "wcag_level" fv = Some (VInt (wcag_level wcag)).
Proof.
  intros H. extract_ok H cr fs. repeat split.
Qed.

Lemma wcag_level_cases (w : list ascii) :
  (wcag_level w = 3 ↔ has_substring (str "AAA") w) ∧
  (wcag_level w = 2 ↔
     ¬ has_substring (str "AAA") w ∧ has_substring (str "AA") w) ∧
  (wcag_level w = 1 ↔
     ¬ has_substring (str "AAA") w ∧ ¬ has_substring (str "AA") w ∧
     has_substring (str "A") w) ∧
  (wcag_level w = 0 ↔
     ¬ has_substring (str "AAA") w ∧ ¬ has_substring (str "AA") w ∧
     ¬ has_substring (str "A") w).
Proof.
  unfold wcag_level. rewrite <- !contains_false, <- !contains_spec.
  destruct (contains (str "AAA") w), (contains (str "AA") w),
    (contains (str "A") w); repeat split; intros; try done;
    repeat match goal with H : _ ∧ _ |- _ => destruct H end; congruence.
Qed.

(** C3, as the claim states it: the level of the reference N/A would
    be 0.  Its upper-cased form contains the letter A, so the level is 1. *)
Lemma wcag_level_not_applicable :
  wcag_level (upper (str "N/A")) = 1 ∧ wcag_level (upper (str "N/A")) ≠ 0.
Proof. split; [reflexivity | discriminate]. Qed.

(** C3, amended. [wcag_level] is computed from the upper-cased reference
    [w]: it is 3 when [w] contains AAA, else 2 when [w] contains AA, else 1
    when [w] contains A, else 0; this is the value the feature row carries
    under the key wcag_level; it is 3, 2 and 1 for the references
    WCAG 2.1 AAA, WCAG 2.1 AA and WCAG 2.1 A, and it is 1 for N/A, which
    contains the letter A; 0 is the level of a reference without that
    letter, such as the text 2.1. *)
Theorem wcag_level_priority :
  (∀ ref : list ascii,
     let w := upper ref in
     (wcag_level w = 3 ↔ has_substring (str "AAA") w) ∧
     (wcag_level w = 2 ↔
        ¬ has_substring (str "AAA") w ∧ has_substring (str "AA") w) ∧
     (wcag_level w = 1 ↔
        ¬ has_substring (str "AAA") w ∧ ¬ has_substring (str "AA") w ∧
        has_substring (str "A") w) ∧
     (wcag_level w = 0 ↔
        ¬ has_substring (str "AAA") w ∧ ¬ has_substring (str "AA") w ∧
        ¬ has_substring (str "A") w)) ∧
  (∀ r fv, extract_everything r = Ok fv →
     series_get "wcag_level" fv =
     Some (VInt (wcag_level (upper (py_str (wcag_reference r)))))) ∧
  wcag_level (upper (str "WCAG 2.1 AAA")) = 3 ∧
  wcag_level (upper (str "WCAG 2.1 AA")) = 2 ∧
  wcag_level (upper (str "WCAG 2.1 A")) = 1 ∧
  wcag_level (upper (str "N/A")) = 1 ∧
  wcag_level (upper (str "2.1")) = 0.
Proof.
  split_and!; try reflexivity.
  - intros ref w. apply wcag_level_cases.
  - intros r fv H. by apply extract_everything_fields in H as (_&_&_&_&_&?).
Qed.

(** The extraction raises exactly when [float] rejects the text captured
    after the contrast ratio or the font size key. *)
Lemma extract_everything_raises_iff (r : row) :
  let supp := lower (py_str (supplementary_information r)) in
  raises (extract_everything r) =
  raises (float_or_nan (search false cr_pat supp))
  || raises (float_or_nan (search false fs_pat supp)).
Proof.
  intros supp. unfold extract_everything. fold supp.
  destruct (float_or_nan (search false cr_pat supp)); [|reflexivity].
  destruct (float_or_nan (search false fs_pat supp)); reflexivity.
Qed.

(** C4. The extraction is not total: on metadata in which the text after
    contrastratio': is 4.5.1, the pattern captures 4.5.1 and [float]
    raises [ValueError]; the same happens for a captured lone point. *)
Theorem extract_everything_raises :
  search false cr_pat
    (lower (py_str (supplementary_information malformed_ratio_row)))
    = Some (Some (str "4.5.1")) ∧
  py_float (str "4.5.1") = Raise ValueError ∧
  extract_everything malformed_ratio_row = Raise ValueError ∧
  extract_everything
    {| affected_html_elements := CStr (str "<p>text</p>");
       supplementary_information := CStr (str "'fontSize': '.'");
       violation_name := CStr (str "color-contrast");
       wcag_reference := CStr (str "WCAG 2.1 AA") |} = Raise ValueError.
Proof. split_and!; reflexivity. Qed.

(** C10. In a returned feature row, snippet_word_count and word_count
    are equal: both are the number of whitespace-delimited words of the
    lower-cased HTML. *)
Theorem word_count_duplicate (r : row) (fv : series) :
  extract_everything r = Ok fv →
  series_get "snippet_word_count" fv = series_get "word_count" fv ∧
  series_get "word_count" fv =
    Some (VInt (len (split (lower (py_str (affected_html_elements r)))))).
Proof.
  intros H. apply extract_everything_fields in H as (Hs & Hw & _).
  by rewrite Hs, Hw.
Qed.

Lemma word_count_duplicate_witness :
  series_get "snippet_word_count" img_alt_empty_features = Some (VInt 2) ∧
  series_get "word_count" img_alt_empty_features = Some (VInt 2).
Proof.
  destruct (word_count_duplicate img_alt_empty_row img_alt_empty_features
              eq_refl) as [Heq Hw].
  rewrite Heq, Hw. split; reflexivity.
Defined.

(** ** The URL flags *)

(** C8. The flags are not tests for the literal text: the page of the
    host mygov.com gets is_gov = 1, a path that starts with education
    gets is_edu = 1 and the host forge.com gets is_org = 1, though none of
    these has .gov, .edu or .org in it; the point of the pattern stands
    for any character.  A missing URL gets 0. *)
Theorem url_flags_match_any_character :
  is_gov [CStr (str "https://mygov.com/")] = [VInt 1] ∧
  contains (str ".gov") (lower (str "https://mygov.com/")) = false ∧
  is_edu [CStr (str "https://example.com/education")] = [VInt 1] ∧
  contains (str ".edu") (lower (str "https://example.com/education")) = false ∧
  is_org [CStr (str "https://forge.com/")] = [VInt 1] ∧
  contains (str ".org") (lower (str "https://forge.com/")) = false ∧
  is_gov [CNaN] = [VInt 0] ∧ is_edu [CNaN] = [VInt 0] ∧
  is_org [CNaN] = [VInt 0].
Proof. split_and!; reflexivity. Qed.

(** *** What the URL flags test *)

Lemma match_here_point3 (a b c : ascii) (s : list ascii) :
  match_here true (Seq Any (Seq (Lit a) (Seq (Lit b) (Lit c)))) s =
  if point3_here a b c s then Some None else None.
Proof.
  unfold match_here, point3_here.
  destruct s as [|x [|a' [|b' [|c' rest]]]]; cbn [rmatch].
  - reflexivity.
  - by destruct (ascii_eqb x line_feed).
  - by destruct (ascii_eqb x line_feed), (same_char true a a').
  - by destruct (ascii_eqb x line_feed), (same_char true a a'),
      (same_char true b b').
  - by destruct (ascii_eqb x line_feed), (same_char true a a'),
      (same_char true b b'), (same_char true c c').
Qed.

Lemma search_point3 (a b c : ascii) (s : list ascii) :
  matched (search true (Seq Any (Seq (Lit a) (Seq (Lit b) (Lit c)))) s) = true
  ↔ ∃ pre post, s = pre ++ post ∧ point3_here a b c post = true.
Proof.
  induction s as [|x s IH].
  - cbn [search]. rewrite match_here_point3. simpl. split; [done|].
    intros (pre & post & Heq & H). symmetry in Heq.
    apply app_eq_nil in Heq as [_ ->]. discriminate H.
  - cbn [search]. rewrite match_here_point3.
    destruct (point3_here a b c (x :: s)) eqn:Hhere.
    + split; [intros _ | done]. by exists [], (x :: s).
    + rewrite IH. split.
      * intros (pre & post & -> & H). by exists (x :: pre), post.
      * intros ([|x' pre] & post & Heq & H).
        -- simpl in Heq. subst post. congruence.
        -- injection Heq as -> ->. by exists pre, post.
Qed.

(** What [is_gov] computes for a URL: 1 exactly when some character
    other than a line feed is followed by the letters g, o, v in either
    case; the same holds for [is_edu] and [is_org] with their letters. *)
Lemma is_gov_meaning (url : list ascii) :
  is_gov [CStr url] = [VInt 1] ↔
  ∃ pre x g o v post,
    url = pre ++ x :: g :: o :: v :: post ∧ x ≠ line_feed ∧
    lower [g; o; v] = str "gov".
Proof.
  unfold is_gov, astype_int, str_contains. cbn [map negb].
  change (re_compile (str ".gov"))
    with (Seq Any (Seq (Lit "g") (Seq (Lit "o") (Lit "v")))).
  pose proof (search_point3 "g" "o" "v" url) as Hs.
  destruct (matched _) eqn:Hm; simpl.
  - split; [intros _ | done].
    destruct Hs as [Hs _]. destruct (Hs eq_refl) as (pre & post & -> & H).
    unfold point3_here in H.
    destruct post as [|x [|g [|o [|v rest]]]]; try discriminate H.
    exists pre, x, g, o, v, rest. split; [done|].
    apply andb_prop in H as [H Hv]. apply andb_prop in H as [H Ho].
    apply andb_prop in H as [Hx Hg].
    unfold same_char in Hg, Ho, Hv. apply ascii_eqb_eq in Hg, Ho, Hv.
    split.
    + intros ->. discriminate Hx.
    + unfold lower. cbn [map]. rewrite <- Hg, <- Ho, <- Hv. reflexivity.
  - split; [discriminate|]. intros (pre & x & g & o & v & post & -> & Hx & Hl).
    destruct Hs as [_ Hs]. enough (false = true) by discriminate. apply Hs.
    exists pre, (x :: g :: o :: v :: post). split; [done|].
    unfold point3_here, same_char.
    change (str "gov") with ["g"; "o"; "v"]%char in Hl.
    unfold lower in Hl. cbn [map] in Hl. injection Hl as Hg Ho Hv.
    rewrite !andb_true_iff, !ascii_eqb_eq, Hg, Ho, Hv.
    split_and!; try reflexivity.
    destruct (ascii_eqb x line_feed) eqn:E; [|done].
    by apply ascii_eqb_eq in E.
Qed.

(** ** The structural extractor *)

Lemma extract_html_features_markup (c : cell) :
  py_str (if pd_isna c then CStr [] else c)
  = (if pd_isna c then [] else py_str c).
Proof. by destruct c. Qed.

(** C7, as the claim states it: the extraction would return for every
    input string.  [html.parser] refuses the marked section below and
    BeautifulSoup raises [ParserRejectedMarkup], which nothing in the
    extractor catches. *)
Lemma extract_html_features_rejected_markup :
  html_parser_samples (str "<![x]>") = Raise ParserRejectedMarkup ∧
  extract_html_features html_parser_samples (CStr (str "<![x]>"))
    = Raise ParserRejectedMarkup ∧
  raises (extract_html_features html_parser_samples (CStr (str "<![x]>")))
    = true.
Proof. split_and!; reflexivity. Qed.

(** C7, amended.  The parser is called once, on the empty text for a
    missing input and on the input otherwise.  When it raises, the
    extraction raises the same exception; when it returns a tree, the
    extraction returns the twelve features: all of them 0 for a tree
    without tags, as the tree of the empty text is; and for a tree with
    tags the mean text length is the sum of the text lengths over the
    number of tags, which is positive, so the mean is never taken over
    nothing. *)
Theorem extract_html_features_outcome
    (html_parser : list ascii → result soup) (c : cell) :
  let markup := if pd_isna c then [] else py_str c in
  (c = CNaN ∨ c = CStr [] → markup = []) ∧
  (∀ e, html_parser markup = Raise e →
        extract_html_features html_parser c = Raise e) ∧
  (∀ sp, html_parser markup = Ok sp →
     ∃ fv, extract_html_features html_parser c = Ok fv ∧
           keys fv = html_feature_keys ∧
           (find_all sp = [] → fv = zero_features) ∧
           (find_all sp ≠ [] →
              (0 < length (find_all sp))%nat ∧
              series_get "avg_text_len_per_tag" fv =
                Some (VFloat (sum_Z (text_lengths sp)
                                # Pos.of_nat (length (find_all sp))))) ∧
           series_get "avg_text_len_per_tag" fv ≠ Some VNaN) ∧
  (html_parser [] = Ok [] → c = CNaN ∨ c = CStr [] →
   extract_html_features html_parser c = Ok zero_features).
Proof.
  intros markup.
  assert (∀ sp, html_parser markup = Ok sp →
            find_all sp = [] →
            extract_html_features html_parser c = Ok zero_features) as Hzero.
  { intros sp Hsp Hnone. unfold extract_html_features.
    rewrite extract_html_features_markup. fold markup. rewrite Hsp.
    cbn [mbind result_bind mret result_ret]. unfold find_named, find_with_attr,
      find_all_named. rewrite Hnone. reflexivity. }
  assert (c = CNaN ∨ c = CStr [] → markup = []) as Hnil.
  { subst markup. by intros [-> | ->]. }
  split_and!.
  - exact Hnil.
  - intros e He. unfold extract_html_features.
    rewrite extract_html_features_markup. fold markup. by rewrite He.
  - intros sp Hsp. eexists. split.
    { unfold extract_html_features.
      rewrite extract_html_features_markup. fold markup. rewrite Hsp.
      reflexivity. }
    assert (length (text_lengths sp) = length (find_all sp)) as Hlen
      by apply length_map.
    cbn [series_get String.eqb Ascii.eqb Bool.eqb keys map fst].
    fold (text_lengths sp). unfold np_mean. rewrite Hlen.
    split_and!.
    + reflexivity.
    + intros Hnone. unfold find_named, find_with_attr, find_all_named.
      rewrite Hnone. reflexivity.
    + intros Hsome. destruct (find_all sp) as [|t ts]; [done|].
      simpl. split; [lia | done].
    + destruct (find_all sp) as [|t ts]; simpl; discriminate.
  - intros Hempty Hc. apply (Hzero []); [|reflexivity].
    by rewrite (Hnil Hc).
Qed.

Lemma extract_html_features_outcome_witness :
  extract_html_features html_parser_samples CNaN = Ok zero_features ∧
  ∃ fv, extract_html_features html_parser_samples
          (CStr (str "<p>hello</p>")) = Ok fv ∧
        series_get "avg_text_len_per_tag" fv = Some (VFloat (5 # 1)).
Proof.
  split.
  - apply (extract_html_features_outcome html_parser_samples CNaN);
      [reflexivity | by left].
  - destruct (extract_html_features_outcome html_parser_samples
                (CStr (str "<p>hello</p>")))
      as (_ & _ & H & _).
    destruct (H _ eq_refl) as (fv & Hfv & _ & _ & Havg & _).
    exists fv. split; [exact Hfv|]. apply Havg. discriminate.
Defined.

(** ** The feature table and the persisted feature names *)

Lemma select_absent (df : table) (k : string) :
  k ∉ columns df → select k df = [].
Proof.
  unfold select, columns. induction df as [|[k' col'] df IH]; intros Hk.
  - reflexivity.
  - cbn [map fst] in Hk. apply not_elem_of_cons in Hk as [Hne Hk].
    rewrite filter_cons_False by (simpl; congruence). by apply IH.
Qed.



Lemma columns_fillna (v : value) (df : table) :
  columns (fillna v df) = columns df.
Proof.
  unfold columns, fillna. rewrite map_map. simpl. reflexivity.
Qed.





(** ** The test partition across the oversampling step *)

Lemma bind_Ok {A B : Type} (m : M A) (f : A → M B) h b h' :
  (m ≫= f) h = Ok (b, h') →
  ∃ a h1, m h = Ok (a, h1) ∧ f a h1 = Ok (b, h').
Proof.
  unfold mbind, M_bind. destruct (m h) as [[a h1]|]; [eauto | discriminate].
Qed.

Lemma ret_Ok {A : Type} (a b : A) (h h' : gmap nat obj) :
  (mret a : M A) h = Ok (b, h') → b = a ∧ h' = h.
Proof. unfold mret, M_ret. by intros [= <- <-]. Qed.

Lemma lift_Ok {A : Type} (r : result A) h a h' :
  lift r h = Ok (a, h') → r = Ok a ∧ h' = h.
Proof. unfold lift. destruct r; [by intros [= <- <-] | discriminate]. Qed.

Lemma new_Ok (o : obj) h l h' :
  new o h = Ok (l, h') → h !! l = None ∧ h' = <[l := o]> h.
Proof.
  unfold new. intros [= <- <-]. split; [|done].
  apply not_elem_of_dom, is_fresh.
Qed.

Lemma write_Ok (l : nat) (o : obj) h u h' :
  write l o h = Ok (u, h') → h' = <[l := o]> h.
Proof. unfold write. by intros [= <-]. Qed.

Lemma read_frame_Ok (l : nat) h t h' :
  read_frame l h = Ok (t, h') → h' = h ∧ h !! l = Some (OFrame t).
Proof.
  unfold read_frame. destruct (h !! l) as [[t'|s]|]; try discriminate.
  by intros [= <- <-].
Qed.

Lemma read_series_Ok (l : nat) h s h' :
  read_series l h = Ok (s, h') → h' = h ∧ h !! l = Some (OSeries s).
Proof.
  unfold read_series. destruct (h !! l) as [[t|s']|]; try discriminate.
  by intros [= <- <-].
Qed.

Lemma frame_except_new (o : obj) h l h' :
  new o h = Ok (l, h') → frame_except [] h h'.
Proof.
  intros [Hfresh ->]%new_Ok l' _ [o' Ho'].
  apply lookup_insert_ne. intros ->. congruence.
Qed.

Lemma frame_except_trans ls h1 h2 h3 :
  frame_except ls h1 h2 → frame_except ls h2 h3 → frame_except ls h1 h3.
Proof.
  intros H12 H23 l Hl Hsome. rewrite <- (H12 l Hl Hsome).
  apply H23; [done|]. by rewrite (H12 l Hl Hsome).
Qed.

Lemma frame_except_weaken ls ls' h h' :
  ls ⊆ ls' → frame_except ls h h' → frame_except ls' h h'.
Proof. intros Hsub H l Hl. apply H. set_solver. Qed.

Lemma map_step_frame (d : gmap Z Z) (ys : nat) h l h' :
  map_step d ys h = Ok (l, h') → h !! l = None ∧ frame_except [] h h'.
Proof.
  unfold map_step. intros H.
  apply bind_Ok in H as (s & h1 & [-> _]%read_series_Ok & H).
  apply bind_Ok in H as (s' & h2 & [_ ->]%lift_Ok & H).
  split; [by apply new_Ok in H as [? _] | by eapply frame_except_new].
Qed.

Lemma smote_step_frame (fit_resample : resampler) (X y : nat) h r h' :
  smote_step fit_resample X y h = Ok (r, h') → frame_except [X; y] h h'.
Proof.
  unfold smote_step. intros H.
  apply bind_Ok in H as (Xv & h1 & [-> _]%read_frame_Ok & H).
  apply bind_Ok in H as (yv & h2 & [-> _]%read_series_Ok & H).
  apply bind_Ok in H as ([[X' y'] [Xr yr]] & h3 & [_ ->]%lift_Ok & H).
  apply bind_Ok in H as (u1 & h4 & ->%write_Ok & H).
  apply bind_Ok in H as (u2 & h5 & ->%write_Ok & H).
  apply bind_Ok in H as (a & h6 & Ha & H).
  apply bind_Ok in H as (b & h7 & Hb & H).
  apply ret_Ok in H as [_ ->].
  apply frame_except_trans with (<[y:=OSeries y']> (<[X:=OFrame X']> h)).
  - intros l Hl _. rewrite !lookup_insert_ne; set_solver.
  - apply (frame_except_weaken []); [set_solver|].
    eapply frame_except_trans; by eapply frame_except_new.
Qed.

Lemma split_step_spec (tts : splitter) (X : table) (y : list value) h v h' :
  split_step tts X y h = Ok (v, h') →
  ∃ Xtr Xte ytr yte,
    tts X y = Ok (Xtr, Xte, ytr, yte) ∧
    h' !! X_train v = Some (OFrame Xtr) ∧
    h' !! X_test v = Some (OFrame Xte) ∧
    h' !! y_train v = Some (OSeries ytr) ∧
    h' !! y_test v = Some (OSeries yte) ∧
    X_train v ≠ X_test v ∧ X_train v ≠ y_test v.
Proof.
  unfold split_step. intros H.
  apply bind_Ok in H as ([[[Xtr Xte] ytr] yte] & h1 & [Htts ->]%lift_Ok & H).
  apply bind_Ok in H as (a & h2 & [Ha ->]%new_Ok & H).
  apply bind_Ok in H as (b & h3 & [Hb ->]%new_Ok & H).
  apply bind_Ok in H as (c & h4 & [Hc ->]%new_Ok & H).
  apply bind_Ok in H as (d & h5 & [Hd ->]%new_Ok & H).
  apply ret_Ok in H as [-> ->]. simpl.
  assert (a ≠ b) by (intros ->; by rewrite lookup_insert_eq in Hb).
  assert (c ≠ a ∧ c ≠ b) as [? ?].
  { split; intros ->; simplify_map_eq. }
  assert (d ≠ a ∧ d ≠ b ∧ d ≠ c) as (? & ? & ?).
  { split_and!; intros ->; simplify_map_eq. }
  exists Xtr, Xte, ytr, yte. split_and!; try done; by simplify_map_eq.
Qed.

(** C9. Whatever the splitter and the oversampler are: when the split
    and the remap-and-oversample steps return, the store after them holds
    under X_test and y_test the very objects the split put there, so the
    test rows, the test labels and the count of every class among them are
    what they were right after the split. *)
Theorem balance_leaves_test_set
    (train_test_split : splitter) (fit_resample : resampler)
    (X : table) (y : list value)
    (h0 h1 h2 : gmap nat obj) (v : split_vars) (b : balance_vars) :
  split_step train_test_split X y h0 = Ok (v, h1) →
  balance_step fit_resample v h1 = Ok (b, h2) →
  ∃ Xtr Xte ytr yte,
    train_test_split X y = Ok (Xtr, Xte, ytr, yte) ∧
    h1 !! X_test v = Some (OFrame Xte) ∧
    h1 !! y_test v = Some (OSeries yte) ∧
    h2 !! X_test v = Some (OFrame Xte) ∧
    h2 !! y_test v = Some (OSeries yte) ∧
    ∀ z, count_label z (labels_at h2 (y_test v)) = count_label z yte.
Proof.
  intros Hsplit Hbal.
  apply split_step_spec in Hsplit
    as (Xtr & Xte & ytr & yte & Htts & Hxtr & Hxte & Hytr & Hyte & Hne1 & Hne2).
  unfold balance_step in Hbal.
  apply bind_Ok in Hbal as (ytm & h3 & [Hytm F1]%map_step_frame & Hbal).
  apply bind_Ok in Hbal as (yem & h4 & [Hyem F2]%map_step_frame & Hbal).
  apply bind_Ok in Hbal as (r & h5 & F3%smote_step_frame & Hbal).
  apply ret_Ok in Hbal as [_ Hh2]. subst h5.
  assert (∀ l, is_Some (h1 !! l) → l ≠ X_train v → h3 !! l = h1 !! l
               ∧ h4 !! l = h1 !! l ∧ h2 !! l = h1 !! l) as Hkeep.
  { intros l Hl Hne.
    assert (h3 !! l = h1 !! l) as E3 by (apply F1; [set_solver | done]).
    assert (h4 !! l = h1 !! l) as E4.
    { rewrite <- E3. apply F2; [set_solver | by rewrite E3]. }
    split_and!; [done..|]. rewrite <- E4. apply F3; [|by rewrite E4].
    assert (l ≠ ytm) by (intros ->; rewrite Hytm in Hl; by destruct Hl).
    rewrite !not_elem_of_cons. split_and!; [done | done | apply not_elem_of_nil]. }
  destruct (Hkeep (X_test v)) as (_ & _ & Ex); [by rewrite Hxte | done |].
  destruct (Hkeep (y_test v)) as (_ & _ & Ey); [by rewrite Hyte | done |].
  exists Xtr, Xte, ytr, yte. split_and!; try done.
  - by rewrite Ex.
  - by rewrite Ey.
  - intros z. unfold labels_at. by rewrite Ey, Hyte.
Qed.

Lemma balance_leaves_test_set_witness :
  ∃ v h1 b h2,
    split_step first_row_split demo_X demo_y ∅ = Ok (v, h1) ∧
    balance_step doubling_resampler v h1 = Ok (b, h2) ∧
    h2 !! X_test v = h1 !! X_test v ∧
    h2 !! y_test v = Some (OSeries [VInt 5]) ∧
    h2 !! X_train v = Some (OFrame []).
Proof.
  destruct (split_step first_row_split demo_X demo_y ∅)
    as [[v h1]|e] eqn:E1; [|by vm_compute in E1].
  destruct (balance_step doubling_resampler v h1) as [[b h2]|e] eqn:E2.
  - exists v, h1, b, h2. split; [reflexivity|]. split; [exact E2|].
    destruct (balance_leaves_test_set _ _ _ _ _ _ _ _ _ E1 E2)
      as (Xtr & Xte & ytr & yte & Htts & Hx1 & Hy1 & Hx2 & Hy2 & _).
    injection Htts as <- <- <- <-.
    split_and!; [by rewrite Hx1, Hx2 | exact Hy2 |].
    pose proof E1 as E. vm_compute in E. injection E as <- <-.
    vm_compute in E2. injection E2 as <- <-. reflexivity.
  - exfalso. pose proof E1 as E. vm_compute in E. injection E as <- <-.
    vm_compute in E2. discriminate E2.
Defined.

(** * Further properties of the pipeline *)

(** ** Cleaning of the categorical columns *)

Lemma isspace_lower_char (c : ascii) : isspace (lower_char c) = isspace c.
Proof. destruct c as [[] [] [] [] [] [] [] []]; reflexivity. Qed.

Lemma lower_char_idemp (c : ascii) : lower_char (lower_char c) = lower_char c.
Proof. destruct c as [[] [] [] [] [] [] [] []]; reflexivity. Qed.

Lemma lower_char_not_upper (c : ascii) : is_upper (lower_char c) = false.
Proof. destruct c as [[] [] [] [] [] [] [] []]; reflexivity. Qed.

Lemma lstrip_lower (s : list ascii) : lstrip (lower s) = lower (lstrip s).
Proof.
  induction s as [|c s IH]; [reflexivity|]. cbn [lower map lstrip].
  rewrite isspace_lower_char. destruct (isspace c); [exact IH | reflexivity].
Qed.

Lemma strip_lower (s : list ascii) : strip (lower s) = lower (strip s).
Proof.
  unfold strip, rstrip. rewrite lstrip_lower. unfold lower at 1.
  rewrite <- map_rev. fold (lower (rev (lstrip s))). rewrite lstrip_lower.
  unfold lower. by rewrite map_rev.
Qed.

Lemma lstrip_head (s : list ascii) (c : ascii) (t : list ascii) :
  lstrip s = c :: t → isspace c = false.
Proof.
  induction s as [|x s IH]; [discriminate|]. simpl.
  destruct (isspace x) eqn:Hx; [exact IH|]. by intros [= <- _].
Qed.

Lemma lstrip_idemp (s : list ascii) : lstrip (lstrip s) = lstrip s.
Proof.
  destruct (lstrip s) as [|c t] eqn:E; [reflexivity|].
  simpl. by rewrite (lstrip_head s c t E).
Qed.

Lemma lstrip_snoc (l : list ascii) (c : ascii) :
  isspace c = false → lstrip (l ++ [c]) = lstrip l ++ [c].
Proof.
  intros Hc. induction l as [|x l IH]; simpl.
  - by rewrite Hc.
  - destruct (isspace x); [exact IH | reflexivity].
Qed.

Lemma rstrip_cons (c : ascii) (t : list ascii) :
  isspace c = false → rstrip (c :: t) = c :: rstrip t.
Proof.
  intros Hc. unfold rstrip. cbn [rev]. change (List.rev t) with (rev t).
  rewrite lstrip_snoc by done. by rewrite rev_app_distr.
Qed.

Lemma rstrip_idemp (s : list ascii) : rstrip (rstrip s) = rstrip s.
Proof. unfold rstrip. by rewrite rev_involutive, lstrip_idemp. Qed.

Lemma strip_idemp (s : list ascii) : strip (strip s) = strip s.
Proof.
  unfold strip. destruct (lstrip s) as [|c t] eqn:E; [reflexivity|].
  pose proof (lstrip_head s c t E) as Hc.
  rewrite rstrip_cons by done. simpl. rewrite Hc.
  by rewrite rstrip_cons, rstrip_idemp.
Qed.

(** X1. Cleaning a categorical cell (strip, then lower) is idempotent; a
    missing cell stays missing and a text stays a text; the cleaned text
    has no upper-case letter and no white space at either end. *)
Theorem clean_cell_idempotent (c : cell) :
  clean_cell (clean_cell c) = clean_cell c ∧
  (clean_cell c = CNaN ↔ c = CNaN) ∧
  ∀ s, clean_cell c = CStr s →
       Forall (fun ch => is_upper ch = false) s ∧
       lstrip s = s ∧ rstrip s = s.
Proof.
  destruct c as [t|]; cbn [clean_cell str_lower str_strip].
  - split_and!.
    + f_equal. rewrite strip_lower, strip_idemp. unfold lower.
      rewrite map_map. apply map_ext. intros a. apply lower_char_idemp.
    + split; discriminate.
    + intros s [= <-]. split_and!.
      * unfold lower. apply Forall_forall. intros ch Hch.
        apply list_elem_of_In, in_map_iff in Hch as (a & <- & _).
        apply lower_char_not_upper.
      * rewrite <- strip_lower. unfold strip.
        destruct (lstrip (lower t)) as [|x u] eqn:E; [reflexivity|].
        pose proof (lstrip_head _ _ _ E) as Hx.
        rewrite rstrip_cons by done. simpl. by rewrite Hx.
      * rewrite <- strip_lower. unfold strip. apply rstrip_idemp.
  - split_and!; [reflexivity | done | discriminate].
Qed.

(** ** Impact and severity *)

Lemma impact_map_lookup (s : list ascii) (k : Z) :
  impact_map !! s = Some k ↔
  (s, k) ∈ [(str "minor", 1); (str "moderate", 2); (str "serious", 3);
            (str "critical", 4)].
Proof.
  unfold impact_map. rewrite !lookup_insert, lookup_singleton.
  rewrite !elem_of_cons, elem_of_nil.
  repeat case_decide; subst; split; intros H'; simplify_eq; try tauto;
    try (destruct H' as [H' | [H' | [H' | [H' | []]]]]; simplify_eq; done).
Qed.

(** X2. Whatever the impact cell holds, the numeric impact is one of 1, 2,
    3, 4: it is 2, 3, 4 exactly for the texts moderate, serious, critical,
    and 1 for minor as for every other text and for a missing cell; the
    severity score lies in (0, 1]; after cleaning, the impact is found
    whatever the letter case and the surrounding white space. *)
Theorem impact_numeric_range :
  (∀ c, 1 ≤ impact_numeric c ≤ 4) ∧
  (∀ c k, 2 ≤ k →
     (impact_numeric c = k ↔
      ∃ s, c = CStr s ∧
           (s, k) ∈ [(str "moderate", 2); (str "serious", 3);
                     (str "critical", 4)])) ∧
  impact_numeric CNaN = 1 ∧
  (∀ c, (0 < severity_score c)%Q ∧ (severity_score c <= 1)%Q) ∧
  (∀ s k, impact_map !! lower (strip s) = Some k →
          impact_numeric (clean_cell (CStr s)) = k).
Proof.
  assert (∀ c, 1 ≤ impact_numeric c ≤ 4) as Hrange.
  { intros [s|]; unfold impact_numeric; simpl; [|lia].
    destruct (impact_map !! s) as [k|] eqn:E; simpl; [|lia].
    apply impact_map_lookup in E.
    rewrite !elem_of_cons, elem_of_nil in E.
    destruct E as [E | [E | [E | [E | []]]]]; simplify_eq; lia. }
  split_and!.
  - exact Hrange.
  - intros c k Hk. unfold impact_numeric. destruct c as [s|]; simpl.
    + destruct (impact_map !! s) as [k'|] eqn:E; simpl.
      * split.
        -- intros ->. exists s. split; [done|].
           apply impact_map_lookup in E.
           rewrite !elem_of_cons, elem_of_nil in *.
           destruct E as [E | E]; [simplify_eq; lia | tauto].
        -- intros (s' & [= <-] & Hin).
           assert (impact_map !! s = Some k) as E'.
           { apply impact_map_lookup. rewrite elem_of_cons. by right. }
           congruence.
      * split; [lia|]. intros (s' & [= <-] & Hin).
        assert (impact_map !! s = Some k) as E'.
        { apply impact_map_lookup. rewrite elem_of_cons. by right. }
        congruence.
    + split; [lia|]. by intros (s' & ? & _).
  - reflexivity.
  - intros c. unfold severity_score, Qlt, Qle. simpl.
    specialize (Hrange c). lia.
  - intros s k E.
    unfold impact_numeric, clean_cell, str_lower, str_strip, map_impact.
    by rewrite E.
Qed.

(** ** Counting *)

Lemma startswith_length (p s : list ascii) :
  startswith p s = true → (length p ≤ length s)%nat.
Proof.
  intros (post & ->)%startswith_spec. rewrite length_app. lia.
Qed.

Lemma count_from_bounds (needle hay : list ascii) (skip : nat) :
  (1 ≤ length needle)%nat →
  0 ≤ count_from needle hay skip ∧
  count_from needle hay skip * Z.of_nat (length needle)
    + Z.of_nat (skip `min` length hay)
  ≤ Z.of_nat (length hay).
Proof.
  intros Hn. revert skip. induction hay as [|x hay IH]; intros skip.
  - simpl. lia.
  - cbn [count_from]. destruct skip as [|k].
    + destruct (startswith needle (x :: hay)) eqn:Hp.
      * apply startswith_length in Hp. cbn [length] in Hp.
        destruct (IH (length needle - 1)%nat) as [H0 H1].
        cbn [length]. split; [lia|]. nia.
      * destruct (IH 0%nat) as [H0 H1]. cbn [length]. lia.
    + destruct (IH k) as [H0 H1]. cbn [length]. lia.
Qed.

Lemma count_from_positive (needle hay : list ascii) (skip : nat) :
  0 < count_from needle hay skip → contains needle hay = true.
Proof.
  revert skip. induction hay as [|x hay IH]; intros skip; cbn [count_from].
  - lia.
  - cbn [contains]. destruct skip as [|k].
    + destruct (startswith needle (x :: hay)); [done|].
      intros H. rewrite (IH _ H). apply orb_true_r.
    + intros H. rewrite (IH _ H). apply orb_true_r.
Qed.

Lemma count_char_app (c : ascii) (a b : list ascii) :
  count [c] (a ++ b) = count [c] a + count [c] b.
Proof.
  unfold count. induction a as [|x a IH]; [simpl; lia|].
  cbn [app count_from startswith length]. simpl (1 - 1)%nat.
  rewrite IH. destruct (ascii_eqb c x && true); lia.
Qed.

Lemma count_char_zero (c : ascii) (s : list ascii) :
  count [c] s = 0 ↔ c ∉ s.
Proof.
  unfold count. induction s as [|x s IH].
  - simpl. split; [intros _; apply not_elem_of_nil | done].
  - cbn [count_from startswith length]. simpl (1 - 1)%nat.
    rewrite not_elem_of_cons, <- IH, andb_true_r.
    pose proof (count_from_bounds [c] s 0) as [H0 _]; [simpl; lia|].
    destruct (ascii_eqb c x) eqn:E.
    + apply ascii_eqb_eq in E. split; [lia | tauto].
    + split; [|tauto]. intros H. split; [|done]. intros ->.
      assert (ascii_eqb x x = true) by by apply ascii_eqb_eq. congruence.
Qed.

(** X3. The URL shape features: both are [NaN] for a missing URL; for a
    URL text the depth is the number of slashes minus 2, so it is at least
    -2, at most the length minus 2, it is -2 exactly when the URL has no
    slash, and the slashes of two joined parts add up. *)
Theorem url_depth_shape :
  url_depth CNaN = VNaN ∧ url_len CNaN = VNaN ∧
  ∀ u : list ascii,
    ∃ d, url_depth (CStr u) = VInt d ∧
         url_len (CStr u) = VInt (len u) ∧
         -2 ≤ d ≤ len u - 2 ∧
         (d = -2 ↔ "/"%char ∉ u) ∧
         ∀ a b, u = a ++ b →
                ∃ da db, url_depth (CStr a) = VInt da ∧
                         url_depth (CStr b) = VInt db ∧
                         d = da + db + 2.
Proof.
  split_and!; try reflexivity. intros u.
  exists (count (str "/") u - 2). split_and!; try reflexivity.
  - pose proof (count_from_bounds (str "/") u 0) as [H _]; [simpl; lia|].
    unfold count. lia.
  - pose proof (count_from_bounds (str "/") u 0) as [_ H]; [simpl; lia|].
    unfold count, len. change (length (str "/")) with 1%nat in H.
    rewrite Nat.min_0_l in H. lia.
  - change (str "/") with ["/"%char]. rewrite <- count_char_zero. lia.
  - intros a b ->. eexists _, _. split_and!; try reflexivity.
    change (str "/") with ["/"%char]. rewrite count_char_app. lia.
Qed.

(** ** The label encoders *)

Lemma code_inj (x y : ascii) : code x = code y → x = y.
Proof.
  unfold code. intros H.
  rewrite <- (ascii_N_embedding x), <- (ascii_N_embedding y). by rewrite H.
Qed.

Lemma text_ltb_irrefl (a : list ascii) : LabelEncoder.text_ltb a a = false.
Proof.
  induction a as [|x a IH]; [reflexivity|]. simpl.
  by rewrite N.ltb_irrefl, N.eqb_refl, IH.
Qed.

Lemma text_ltb_trans (a b c : list ascii) :
  LabelEncoder.text_ltb a b = true → LabelEncoder.text_ltb b c = true →
  LabelEncoder.text_ltb a c = true.
Proof.
  revert b c. induction a as [|x a IH]; intros [|y b] [|z c]; simpl;
    try done.
  rewrite !orb_true_iff, !andb_true_iff, !N.ltb_lt, !N.eqb_eq.
  intros [Hxy | [Hxy Hab]] [Hyz | [Hyz Hbc]].
  - left. lia.
  - left. lia.
  - left. lia.
  - right. split; [lia|]. by eapply IH.
Qed.

Lemma text_ltb_total (a b : list ascii) :
  LabelEncoder.text_ltb a b = false → a ≠ b →
  LabelEncoder.text_ltb b a = true.
Proof.
  revert b. induction a as [|x a IH]; intros [|y b]; simpl; try done.
  rewrite orb_false_iff, andb_false_iff, orb_true_iff, andb_true_iff.
  rewrite !N.ltb_ge, !N.ltb_lt, N.eqb_neq, N.eqb_eq.
  intros [Hge Hc] Hne.
  destruct (decide (code x = code y)) as [Heq | Hneq].
  - right. split; [lia|]. apply code_inj in Heq as ->.
    destruct Hc as [Hc | Hc]; [done|]. apply IH; [done | congruence].
  - left. lia.
Qed.

Lemma text_eqb_eq (a b : list ascii) : text_eqb a b = true ↔ a = b.
Proof. unfold text_eqb. apply bool_decide_eq_true. Qed.

Lemma insert_elem (x y : list ascii) (l : list (list ascii)) :
  y ∈ LabelEncoder.insert x l ↔ y = x ∨ y ∈ l.
Proof.
  induction l as [|z l IH]; simpl.
  - rewrite list_elem_of_singleton, elem_of_nil. tauto.
  - destruct (LabelEncoder.text_ltb x z).
    + by rewrite elem_of_cons.
    + destruct (text_eqb x z) eqn:E.
      * apply text_eqb_eq in E as ->. rewrite elem_of_cons. tauto.
      * rewrite !elem_of_cons, IH. tauto.
Qed.

Lemma insert_sorted (x : list ascii) (l : list (list ascii)) :
  StronglySorted text_lt l → StronglySorted text_lt (LabelEncoder.insert x l).
Proof.
  induction 1 as [|z l Hs IH Hz]; simpl.
  - repeat constructor.
  - destruct (LabelEncoder.text_ltb x z) eqn:Hlt.
    + constructor; [by constructor|]. constructor; [done|].
      eapply Forall_impl; [exact Hz|]. intros w Hw.
      by eapply text_ltb_trans.
    + destruct (text_eqb x z) eqn:E; [by constructor|].
      constructor; [exact IH|]. apply Forall_forall. intros w Hw.
      apply insert_elem in Hw as [-> | Hw].
      * apply text_ltb_total; [done|]. intros ->.
        assert (text_eqb z z = true) by by apply text_eqb_eq. congruence.
      * by eapply (proj1 (Forall_forall _ _) Hz).
Qed.

Lemma fit_elem (y : list ascii) (values : list (list ascii)) :
  y ∈ LabelEncoder.fit values ↔ y ∈ values.
Proof.
  unfold LabelEncoder.fit. induction values as [|v values IH]; simpl.
  - done.
  - rewrite insert_elem, elem_of_cons, IH. tauto.
Qed.

Lemma fit_sorted (values : list (list ascii)) :
  StronglySorted text_lt (LabelEncoder.fit values).
Proof.
  unfold LabelEncoder.fit. induction values as [|v values IH]; simpl.
  - constructor.
  - by apply insert_sorted.
Qed.

Lemma sorted_lookup_lt (l : list (list ascii)) (i j : nat) (v w : list ascii) :
  StronglySorted text_lt l → l !! i = Some v → l !! j = Some w →
  (i < j)%nat → text_lt v w.
Proof.
  intros Hs. revert i j. induction Hs as [|z l Hs IH Hz]; intros i j Hi Hj Hlt.
  - done.
  - destruct j as [|j]; [lia|]. destruct i as [|i]; simpl in *.
    + injection Hi as <-. eapply (proj1 (Forall_forall _ _) Hz).
      by eapply list_elem_of_lookup_2.
    + apply (IH i j); [done | done | lia].
Qed.

Lemma index_of_lookup (x : list ascii) (classes : list (list ascii)) (i : nat) :
  LabelEncoder.index_of x classes = Some i → classes !! i = Some x.
Proof.
  revert i. induction classes as [|y classes IH]; intros i; simpl; [done|].
  destruct (text_eqb x y) eqn:E.
  - apply text_eqb_eq in E as ->. by intros [= <-].
  - destruct (LabelEncoder.index_of x classes) as [k|]; simpl; [|done].
    intros [= <-]. by apply IH.
Qed.

Lemma index_of_elem (x : list ascii) (classes : list (list ascii)) :
  x ∈ classes → is_Some (LabelEncoder.index_of x classes).
Proof.
  induction classes as [|y classes IH]; simpl.
  - by intros ?%elem_of_nil.
  - destruct (text_eqb x y) eqn:E; [by eexists|].
    intros [-> | Hin]%elem_of_cons.
    + assert (text_eqb y y = true) by by apply text_eqb_eq. congruence.
    + destruct (IH Hin) as [k ->]. by eexists.
Qed.

Lemma transform_decodes (classes values : list (list ascii)) :
  Forall (fun v => v ∈ classes) values →
  ∃ codes,
    LabelEncoder.transform classes values = Ok codes ∧
    length codes = length values ∧
    ∀ i v, values !! i = Some v →
           ∃ c, codes !! i = Some c ∧ classes !! c = Some v.
Proof.
  induction 1 as [|v values Hv Hall (codes & Hok & Hlen & Hdec)]; simpl.
  - exists []. split_and!; [done | done | intros i v; by rewrite lookup_nil].
  - destruct (index_of_elem v classes Hv) as [c Hc]. rewrite Hc, Hok.
    exists (c :: codes). split_and!; [done | simpl; lia |].
    intros [|i] w; simpl.
    + intros [= <-]. exists c. split; [done|]. by apply index_of_lookup.
    + apply Hdec.
Qed.

Lemma transform_unseen (classes values : list (list ascii)) :
  ¬ Forall (fun v => v ∈ classes) values →
  LabelEncoder.transform classes values = Raise ValueError.
Proof.
  induction values as [|v values IH]; simpl; intros Hn.
  - destruct Hn. constructor.
  - destruct (LabelEncoder.index_of v classes) as [c|] eqn:Hc; [|done].
    rewrite IH; [done|]. intros Hall. apply Hn. constructor; [|done].
    apply index_of_lookup in Hc. by eapply list_elem_of_lookup_2.
Qed.

(** X4. The class list an encoder keeps after fitting holds exactly the
    values it was fitted on, in strictly increasing order of their
    character codes, so no value occurs twice and there are at most as many
    classes as values. *)
Theorem fit_classes_sorted (values : list (list ascii)) :
  StronglySorted text_lt (LabelEncoder.fit values) ∧
  NoDup (LabelEncoder.fit values) ∧
  (∀ v, v ∈ LabelEncoder.fit values ↔ v ∈ values) ∧
  (length (LabelEncoder.fit values) ≤ length values)%nat.
Proof.
  assert (NoDup (LabelEncoder.fit values)) as Hnd.
  { apply NoDup_alt. intros i j v Hi Hj.
    destruct (Nat.lt_trichotomy i j) as [Hlt | [-> | Hlt]]; [|done|].
    - pose proof (sorted_lookup_lt _ _ _ _ _ (fit_sorted values) Hi Hj Hlt)
        as H. unfold text_lt in H. by rewrite text_ltb_irrefl in H.
    - pose proof (sorted_lookup_lt _ _ _ _ _ (fit_sorted values) Hj Hi Hlt)
        as H. unfold text_lt in H. by rewrite text_ltb_irrefl in H. }
  split_and!.
  - apply fit_sorted.
  - exact Hnd.
  - intros v. apply fit_elem.
  - apply submseteq_length, NoDup_submseteq; [exact Hnd|].
    intros v. apply fit_elem.
Qed.

(** X5. Encoding the very values an encoder was fitted on never raises:
    it returns one code per value, each code is a position of the class
    list, and the class at that position is the value, so the persisted
    class list decodes every code. *)
Theorem fit_transform_decodes (values : list (list ascii)) :
  ∃ codes,
    LabelEncoder.fit_transform values = Ok codes ∧
    length codes = length values ∧
    ∀ i v, values !! i = Some v →
           ∃ c, codes !! i = Some c ∧
                (c < length (LabelEncoder.fit values))%nat ∧
                LabelEncoder.fit values !! c = Some v.
Proof.
  destruct (transform_decodes (LabelEncoder.fit values) values)
    as (codes & Hok & Hlen & Hdec).
  { apply Forall_forall. intros v Hv. by apply fit_elem. }
  exists codes. split_and!; [done | done |].
  intros i v Hi. destruct (Hdec i v Hi) as (c & Hc & Hcls).
  exists c. split_and!; [done | by eapply lookup_lt_Some | done].
Qed.

(** X6. The codes of a fitted column follow the values: two rows get the
    same code exactly when they hold the same value, and a smaller code
    exactly when they hold the smaller value. *)
Theorem fit_transform_order (values : list (list ascii)) (codes : list nat)
    (i j : nat) (v w : list ascii) (a b : nat) :
  LabelEncoder.fit_transform values = Ok codes →
  values !! i = Some v → values !! j = Some w →
  codes !! i = Some a → codes !! j = Some b →
  (a = b ↔ v = w) ∧ ((a < b)%nat ↔ text_lt v w).
Proof.
  intros Hok Hv Hw Ha Hb.
  destruct (transform_decodes (LabelEncoder.fit values) values)
    as (codes' & Hok' & _ & Hdec).
  { apply Forall_forall. intros u Hu. by apply fit_elem. }
  unfold LabelEncoder.fit_transform in Hok. rewrite Hok in Hok'.
  injection Hok' as <-.
  destruct (Hdec i v Hv) as (a' & Ha' & Hca).
  destruct (Hdec j w Hw) as (b' & Hb' & Hcb).
  rewrite Ha in Ha'. rewrite Hb in Hb'. simplify_eq.
  pose proof (fit_sorted values) as Hs.
  assert (∀ x y p q, LabelEncoder.fit values !! p = Some x →
                     LabelEncoder.fit values !! q = Some y →
                     text_lt x y → (p < q)%nat) as Hrev.
  { intros x y p q Hp Hq Hxy.
    destruct (Nat.lt_trichotomy p q) as [Hlt | [-> | Hlt]]; [done| |].
    - rewrite Hp in Hq. injection Hq as ->. unfold text_lt in Hxy.
      by rewrite text_ltb_irrefl in Hxy.
    - pose proof (sorted_lookup_lt _ _ _ _ _ Hs Hq Hp Hlt) as Hyx.
      pose proof (text_ltb_trans _ _ _ Hxy Hyx) as Hxx.
      by rewrite text_ltb_irrefl in Hxx. }
  split; split.
  - intros ->. congruence.
  - intros ->. destruct (Nat.lt_trichotomy a' b') as [Hlt | [-> | Hlt]];
      [|done|].
    + pose proof (sorted_lookup_lt _ _ _ _ _ Hs Hca Hcb Hlt) as H.
      unfold text_lt in H. by rewrite text_ltb_irrefl in H.
    + pose proof (sorted_lookup_lt _ _ _ _ _ Hs Hcb Hca Hlt) as H.
      unfold text_lt in H. by rewrite text_ltb_irrefl in H.
  - intros Hlt. by eapply sorted_lookup_lt.
  - intros Hlt. by eapply Hrev.
Qed.

Lemma fit_transform_order_witness :
  LabelEncoder.fit_transform [str "img"; str "a"; str "img"; str "div"]
    = Ok [2; 0; 2; 1]%nat ∧
  ((2 = 2)%nat ↔ str "img" = str "img") ∧
  ((0 < 1)%nat ↔ text_lt (str "a") (str "div")).
Proof.
  split; [reflexivity|]. split.
  - apply (fit_transform_order
             [str "img"; str "a"; str "img"; str "div"] [2; 0; 2; 1]%nat
             0 2 (str "img") (str "img") 2 2); reflexivity.
  - apply (fit_transform_order
             [str "img"; str "a"; str "img"; str "div"] [2; 0; 2; 1]%nat
             1 3 (str "a") (str "div") 0 1); reflexivity.
Defined.

(** ** Labels, predictions and the feature table *)

Lemma map_value_forward (x : Z) :
  2 ≤ x ≤ 5 → map_value score_mapping (VInt x) = VInt (x - 2).
Proof.
  intros Hx. simpl. unfold map_key. rewrite score_mapping_lookup.
  by rewrite bool_decide_eq_true_2.
Qed.

Lemma map_value_backward (c : Z) :
  0 ≤ c ≤ 3 → map_value reverse_mapping (VInt c) = VInt (c + 2).
Proof.
  intros Hc. simpl. unfold map_key. rewrite reverse_mapping_lookup.
  by rewrite bool_decide_eq_true_2.
Qed.

(** X7. On a series whose labels all lie in 2..5, mapping forward with
    the score dictionary and then back with the reverse dictionary returns
    the series unchanged; and a series of predicted class indices in 0..3
    maps back to labels in 2..5, with no missing value. *)
Theorem series_round_trip :
  (∀ ys, Forall (fun v => ∃ x, v = VInt x ∧ 2 ≤ x ≤ 5) ys →
         Series_map score_mapping ys ≫= Series_map reverse_mapping = Ok ys) ∧
  (∀ preds, Forall (fun v => ∃ c, v = VInt c ∧ 0 ≤ c ≤ 3) preds →
            ∃ labels, Series_map reverse_mapping preds = Ok labels ∧
                      length labels = length preds ∧
                      Forall (fun v => ∃ x, v = VInt x ∧ 2 ≤ x ≤ 5) labels).
Proof.
  split.
  - intros ys Hys. unfold Series_map. cbn [mbind result_bind]. f_equal.
    rewrite map_map. induction Hys as [|v ys (x & -> & Hx) Hall IH].
    + reflexivity.
    + cbn [map]. rewrite IH. f_equal.
      rewrite map_value_forward by done. rewrite map_value_backward by lia.
      f_equal. lia.
  - intros preds Hp. exists (map (map_value reverse_mapping) preds).
    split_and!; [reflexivity | apply length_map |].
    induction Hp as [|v preds (c & -> & Hc) Hall IH]; cbn [map].
    + constructor.
    + constructor; [|exact IH]. exists (c + 2).
      rewrite map_value_backward by done. split; [done | lia].
Qed.

Lemma select_nonempty (df : list (string * list value)) (k : string) :
  k ∈ columns df → select k df ≠ [].
Proof.
  unfold select, columns. induction df as [|[k' col] df IH]; cbn [map fst].
  - by intros ?%elem_of_nil.
  - intros Hin. destruct (decide (k' = k)) as [-> | Hne].
    + by rewrite filter_cons_True.
    + rewrite filter_cons_False by (simpl; congruence).
      apply elem_of_cons in Hin as [-> | Hin]; [done | by apply IH].
Qed.

Lemma select_labels (df : list (string * list value)) (k : string) :
  Forall (fun c => fst c = k ∧ c ∈ df) (select k df).
Proof.
  apply Forall_forall. intros c Hc. unfold select in Hc.
  apply list_elem_of_filter in Hc as [Hk Hin]. by split.
Qed.

Lemma getitem_list_spec (df : list (string * list value)) (ks : list string) :
  (Forall (fun k => k ∈ columns df) ks →
   ∃ X, getitem_list df ks = Ok X ∧
        (∀ k, k ∈ columns X ↔ k ∈ ks) ∧
        Forall (fun c => c ∈ df) X) ∧
  (¬ Forall (fun k => k ∈ columns df) ks →
   ∃ k, getitem_list df ks = Raise (KeyError k) ∧ k ∈ ks ∧ k ∉ columns df).
Proof.
  induction ks as [|k ks [IHok IHbad]]; split.
  - intros _. exists []. split_and!; [done | | constructor].
    intros k. simpl. split; by intros ?%elem_of_nil.
  - intros Hn. destruct Hn. constructor.
  - intros [Hk Hall]%Forall_cons. destruct (IHok Hall) as (X & HX & Hcols & Hsub).
    pose proof (select_nonempty df k Hk) as Hne.
    pose proof (select_labels df k) as Hsel.
    cbn [getitem_list]. destruct (select k df) as [|c cols] eqn:E; [done|].
    rewrite HX. exists ((c :: cols) ++ X). split_and!; [done | |].
    + intros k'. unfold columns. rewrite map_app, elem_of_app, elem_of_cons.
      fold (columns X). rewrite Hcols. split.
      * intros [Hin | Hin]; [left | by right].
        apply list_elem_of_In, in_map_iff in Hin as (c' & <- & Hc').
        apply list_elem_of_In in Hc'.
        by apply (proj1 (Forall_forall _ _) Hsel) in Hc' as [? _].
      * intros [-> | Hin]; [left | by right].
        apply list_elem_of_In, in_map_iff. exists c. split.
        -- by apply Forall_inv in Hsel as [? _].
        -- apply list_elem_of_In. by left.
    + apply Forall_app. split; [|done].
      eapply Forall_impl; [exact Hsel|]. by intros c' [_ ?].
  - intros Hn. cbn [getitem_list].
    destruct (decide (k ∈ columns df)) as [Hk | Hk].
    + assert (¬ Forall (fun k => k ∈ columns df) ks) as Hn'.
      { intros Hall. apply Hn. by constructor. }
      destruct (IHbad Hn') as (k' & Hraise & Hin & Hout).
      pose proof (select_nonempty df k Hk) as Hne.
      destruct (select k df) as [|c cols]; [done|]. rewrite Hraise.
      exists k'. split_and!; [done | by right | done].
    + rewrite (select_absent df k Hk). exists k.
      split_and!; [done | by left | done].
Qed.

(** X8. Selecting the candidate features raises [KeyError] as soon as one
    of them labels no column, which the filter of the feature list
    prevents: for every table, also with repeated labels, the feature table
    is returned, its columns carry exactly the labels of the persisted
    feature names, and no value in it is missing. *)
Theorem feature_table_total (df : list (string * list value)) :
  (¬ Forall (fun f => f ∈ columns df) features →
   ∃ f, getitem_list df features = Raise (KeyError f) ∧ f ∉ columns df) ∧
  ∃ X, feature_table df = Ok X ∧
       (∀ k, k ∈ columns X ↔ k ∈ feature_names (make_artifacts df)) ∧
       ∀ c v, c ∈ X → v ∈ snd c → v ≠ VNaN.
Proof.
  split.
  - intros Hn. destruct (proj2 (getitem_list_spec df features) Hn)
      as (f & Hraise & _ & Hout). by exists f.
  - destruct (proj1 (getitem_list_spec df (available_features df)))
      as (X & HX & Hcols & _).
    { apply Forall_forall. intros f Hf. unfold available_features in Hf.
      by apply list_elem_of_filter in Hf as [? _]. }
    exists (fillna (VInt 0) X). unfold feature_table. rewrite HX.
    split_and!; [done | |].
    + intros k. rewrite columns_fillna. apply Hcols.
    + intros c v Hc Hv. unfold fillna in Hc.
      apply list_elem_of_In, in_map_iff in Hc as (c' & <- & _).
      cbn [snd] in Hv.
      apply list_elem_of_In, in_map_iff in Hv as (v' & <- & _).
      by destruct v'.
Qed.

(** ** The matcher on the patterns of the extractor *)

Lemma rmatch_Star (ic : bool) (a : regex) s g k :
  rmatch ic (Star a) s g k = star_loop (rmatch ic a) k (length s) s g.
Proof. reflexivity. Qed.

Lemma rmatch_LazyStar (ic : bool) (a : regex) s g k :
  rmatch ic (LazyStar a) s g k = lazy_loop (rmatch ic a) k (length s) s g.
Proof. reflexivity. Qed.

Lemma class_Lit (c : ascii) : char_class (Lit c) (ascii_eqb c).
Proof. intros [|c' s] g k; reflexivity. Qed.

Lemma class_Range (lo hi : ascii) : char_class (Range lo hi) (in_range lo hi).
Proof. intros [|c' s] g k; reflexivity. Qed.

Lemma class_Space : char_class Space isspace.
Proof. intros [|c' s] g k; reflexivity. Qed.

Lemma class_Any : char_class Any not_line_feed.
Proof.
  intros [|c' s] g k; [reflexivity|]. unfold not_line_feed. simpl.
  by destruct (ascii_eqb c' line_feed).
Qed.

Lemma class_Alt (a b : regex) (p q : ascii → bool) :
  char_class a p → char_class b q →
  char_class (Alt a b) (fun c => p c || q c).
Proof.
  intros Ha Hb [|c s] g k; cbn [rmatch]; rewrite Ha, Hb; [reflexivity|].
  destruct (p c), (q c); simpl; try reflexivity; by destruct (k s g).
Qed.

Lemma class_alnum : char_class alnum_class is_alnum.
Proof.
  exact (class_Alt _ _ _ _ (class_Range "a" "z")
           (class_Alt _ _ _ _ (class_Range "A" "Z") (class_Range "0" "9"))).
Qed.

Lemma class_quote : char_class quote_class is_quote.
Proof.
  exact (class_Alt _ _ _ _ (class_Lit double_quote) (class_Lit single_quote)).
Qed.

Lemma class_number : char_class number_class is_number_char.
Proof.
  exact (class_Alt _ _ _ _ (class_Range "0" "9") (class_Lit ".")).
Qed.

Lemma star_loop_class (cls : regex) (p : ascii → bool) k (n : nat) s g :
  char_class cls p → (length s ≤ n)%nat →
  star_loop (rmatch false cls) k n s g = star_class p k s g.
Proof.
  intros Hcls. revert s g. induction n as [|n IH]; intros s g Hn.
  - destruct s; [reflexivity | simpl in Hn; lia].
  - cbn [star_loop]. rewrite Hcls. destruct s as [|c s]; [reflexivity|].
    cbn [star_class]. destruct (p c); [|reflexivity].
    assert ((length s <? length (c :: s))%nat = true) as ->
      by (apply Nat.ltb_lt; simpl; lia).
    rewrite IH by (simpl in Hn; lia). reflexivity.
Qed.

Lemma lazy_loop_class (cls : regex) (p : ascii → bool) k (n : nat) s g :
  char_class cls p → (length s ≤ n)%nat →
  lazy_loop (rmatch false cls) k n s g = lazy_class p k s g.
Proof.
  intros Hcls. revert s g. induction n as [|n IH]; intros s g Hn.
  - destruct s; [|simpl in Hn; lia]. simpl. by destruct (k [] g).
  - cbn [lazy_loop]. rewrite Hcls. destruct s as [|c s].
    + simpl. by destruct (k [] g).
    + cbn [lazy_class]. destruct (k (c :: s) g); [reflexivity|].
      destruct (p c); [|reflexivity].
      assert ((length s <? length (c :: s))%nat = true) as ->
        by (apply Nat.ltb_lt; simpl; lia).
      by rewrite IH by (simpl in Hn; lia).
Qed.

(** A greedy run before a continuation that never fails, or that fails
    on every character of the run, stops at the end of the run. *)
Lemma star_class_total (p : ascii → bool) k s g :
  (∀ s' g', is_Some (k s' g')) →
  star_class p k s g = k (drop_run p s) g.
Proof.
  intros Hk. induction s as [|c s IH]; [reflexivity|]. simpl.
  destruct (p c); [|reflexivity]. rewrite IH.
  by destruct (Hk (drop_run p s) g) as [m ->].
Qed.

Lemma star_class_exclusive (p : ascii → bool) k s g :
  (∀ c s' g', p c = true → k (c :: s') g' = None) →
  star_class p k s g = k (drop_run p s) g.
Proof.
  intros Hk. induction s as [|c s IH]; [reflexivity|]. simpl.
  destruct (p c) eqn:Hc; [|reflexivity]. rewrite IH.
  destruct (k (drop_run p s) g); [reflexivity|]. by apply Hk.
Qed.

Lemma take_drop_run (p : ascii → bool) (s : list ascii) :
  take_run p s ++ drop_run p s = s.
Proof.
  induction s as [|c s IH]; [reflexivity|]. simpl.
  destruct (p c); [|reflexivity]. simpl. by rewrite IH.
Qed.

Lemma consumed_app (w rest : list ascii) : consumed (w ++ rest) rest = w.
Proof.
  unfold consumed. rewrite length_app.
  replace (length w + length rest - length rest)%nat with (length w) by lia.
  by rewrite take_app_length.
Qed.

Lemma consumed_run (p : ascii → bool) (s : list ascii) :
  consumed s (drop_run p s) = take_run p s.
Proof. rewrite <- (take_drop_run p s) at 1. apply consumed_app. Qed.

Lemma rmatch_Lits s g k (p : list ascii) :
  rmatch false (Lits p) s g k =
  if startswith p s then k (drop (length p) s) g else None.
Proof.
  revert s. induction p as [|c p IH]; intros s; [reflexivity|].
  destruct p as [|c2 p].
  - destruct s as [|c' s]; [reflexivity|]. simpl.
    unfold same_char. rewrite andb_true_r. by rewrite drop_0.
  - change (Lits (c :: c2 :: p)) with (Seq (Lit c) (Lits (c2 :: p))).
    cbn [rmatch]. destruct s as [|c' s]; [reflexivity|].
    unfold same_char. cbn [startswith length drop].
    destruct (ascii_eqb c c'); [|reflexivity]. rewrite IH. reflexivity.
Qed.

Lemma search_unfold (ic : bool) (r : regex) (s : list ascii) :
  search ic r s =
  match match_here ic r s with
  | Some g => Some g
  | None => match s with [] => None | _ :: s' => search ic r s' end
  end.
Proof. destruct s; reflexivity. Qed.

(** A search agrees with the first position where the direct scan finds
    something, once matching at one position agrees with the scan. *)
Lemma search_first_match (r : regex)
    (here : list ascii → option (list ascii)) :
  (∀ s, match_here false r s = Some <$> here s) →
  ∀ s, search false r s = Some <$> first_match here s.
Proof.
  intros Hhere s. induction s as [|c s IH].
  - simpl. rewrite Hhere. by destruct (here []).
  - rewrite search_unfold, Hhere. cbn [first_match].
    destruct (here (c :: s)); [reflexivity | exact IH].
Qed.

Lemma first_match_spec (here : list ascii → option (list ascii))
    (s v : list ascii) :
  first_match here s = Some v ↔
  ∃ pre post, s = pre ++ post ∧ here post = Some v ∧
              ∀ a b, pre = a ++ b → b ≠ [] → here (b ++ post) = None.
Proof.
  induction s as [|c s IH]; cbn [first_match].
  - destruct (here []) as [w|] eqn:E.
    + split.
      * intros [= <-]. exists [], []. split_and!; [done | done |].
        intros a b Hab Hb. symmetry in Hab.
        apply app_eq_nil in Hab as [_ ->]. done.
      * intros (pre & post & Heq & Hpost & _). symmetry in Heq.
        apply app_eq_nil in Heq as [-> ->]. congruence.
    + split; [done|]. intros (pre & post & Heq & Hpost & _).
      symmetry in Heq. apply app_eq_nil in Heq as [-> ->]. congruence.
  - destruct (here (c :: s)) as [w|] eqn:E.
    + split.
      * intros [= <-]. exists [], (c :: s). split_and!; [done | done |].
        intros a b Hab Hb. symmetry in Hab.
        apply app_eq_nil in Hab as [_ ->]. done.
      * intros ([|c' pre] & post & Heq & Hpost & Hfirst).
        -- simpl in Heq. subst post. congruence.
        -- injection Heq as -> ->.
           specialize (Hfirst [] (c' :: pre) eq_refl). simpl in Hfirst.
           rewrite Hfirst in E; [done | done].
    + rewrite IH. split.
      * intros (pre & post & -> & Hpost & Hfirst).
        exists (c :: pre), post. split_and!; [done | done |].
        intros [|x a] b Hab Hb.
        -- simpl in Hab. subst b. exact E.
        -- injection Hab as -> ->. by apply (Hfirst a b).
      * intros ([|c' pre] & post & Heq & Hpost & Hfirst).
        -- simpl in Heq. subst post. congruence.
        -- injection Heq as -> ->. exists pre, post.
           split_and!; [done | done |]. intros a b -> Hb.
           apply (Hfirst (c' :: a) b); done.
Qed.

Lemma rmatch_Seq (ic : bool) (a b : regex) s g k :
  rmatch ic (Seq a b) s g k =
  rmatch ic a s g (fun s1 g1 => rmatch ic b s1 g1 k).
Proof. reflexivity. Qed.

Lemma rmatch_Group (ic : bool) (a : regex) s g k :
  rmatch ic (Group a) s g k =
  rmatch ic a s g (fun s1 _ => k s1 (Some (consumed s s1))).
Proof. reflexivity. Qed.

Lemma rmatch_Alt (ic : bool) (a b : regex) s g k :
  rmatch ic (Alt a b) s g k =
  match rmatch ic a s g k with
  | Some m => Some m
  | None => rmatch ic b s g k
  end.
Proof. reflexivity. Qed.

(** A group of one or more characters of a class, before a continuation
    that takes whatever the group captured. *)
Lemma rmatch_Group_Plus_class (cls : regex) (p : ascii → bool) s g :
  char_class cls p →
  rmatch false (Group (Plus cls)) s g (fun _ g' => Some g') =
  match s with
  | c :: t => if p c then Some (Some (c :: take_run p t)) else None
  | [] => None
  end.
Proof.
  intros Hcls. unfold Plus. rewrite rmatch_Group, rmatch_Seq, Hcls.
  destruct s as [|c t]; [reflexivity|]. destruct (p c); [|reflexivity].
  rewrite rmatch_Star, (star_loop_class cls p) by done.
  rewrite star_class_total by (intros; by eexists).
  do 2 f_equal. rewrite <- (take_drop_run p t) at 1.
  apply (consumed_app (c :: take_run p t)).
Qed.

Lemma match_here_tag (s : list ascii) :
  match_here false tag_pat s = Some <$> tag_here s.
Proof.
  unfold match_here, tag_pat. rewrite rmatch_Seq, (class_Lit "<").
  destruct s as [|c0 s]; [reflexivity|]. unfold tag_here.
  destruct (ascii_eqb "<" c0); simpl andb.
  - rewrite (rmatch_Group_Plus_class _ _ _ _ class_alnum).
    destruct s as [|c1 t]; [reflexivity|]. by destruct (is_alnum c1).
  - by destruct s.
Qed.

Lemma html_tag_first_match (html : list ascii) :
  html_tag html = default (str "unknown") (first_match tag_here html).
Proof.
  unfold html_tag. rewrite (search_first_match _ _ match_here_tag).
  by destruct (first_match tag_here html).
Qed.

Lemma take_run_Forall (p : ascii → bool) (s : list ascii) :
  Forall (fun c => p c = true) (take_run p s).
Proof.
  induction s as [|c s IH]; simpl; [constructor|].
  destruct (p c) eqn:E; by constructor.
Qed.

Lemma take_run_all (p : ascii → bool) (w rest : list ascii) :
  Forall (fun c => p c = true) w →
  (∀ c t, rest = c :: t → p c = false) →
  take_run p (w ++ rest) = w.
Proof.
  intros Hw Hrest. induction Hw as [|c w Hc Hw IH]; simpl.
  - destruct rest as [|c t]; [reflexivity|]. simpl.
    by rewrite (Hrest c t).
  - by rewrite Hc, IH.
Qed.

Lemma drop_run_all (p : ascii → bool) (w rest : list ascii) :
  Forall (fun c => p c = true) w →
  (∀ c t, rest = c :: t → p c = false) →
  drop_run p (w ++ rest) = rest.
Proof.
  intros Hw Hrest. induction Hw as [|c w Hc Hw IH]; simpl.
  - destruct rest as [|c t]; [reflexivity|]. simpl.
    by rewrite (Hrest c t).
  - by rewrite Hc, IH.
Qed.

Lemma is_alnum_lower (c : ascii) :
  is_alnum (lower_char c) = true →
  is_lower (lower_char c) || is_digit (lower_char c) = true.
Proof. destruct c as [[] [] [] [] [] [] [] []]; done. Qed.

(** X9. The tag name of a fragment is never empty and holds only letters
    and digits (lower-case ones, since the HTML is lower-cased first); it
    is the text unknown when the HTML has no opening angle bracket; and
    when the first opening angle bracket is followed by a name, that name,
    read up to the first character that is no letter or digit, is the tag
    name. *)
Theorem html_tag_shape :
  (∀ r fv, extract_everything r = Ok fv →
           series_get "html_tag" fv =
           Some (VStr (html_tag (lower (py_str (affected_html_elements r)))))) ∧
  (∀ html, html_tag html ≠ [] ∧
           Forall (fun c => is_alnum c = true) (html_tag html)) ∧
  (∀ h, Forall (fun c => is_lower c || is_digit c = true)
               (html_tag (lower h))) ∧
  (∀ html, "<"%char ∉ html → html_tag html = str "unknown") ∧
  (∀ pre name rest,
     "<"%char ∉ pre → name ≠ [] → Forall (fun c => is_alnum c = true) name →
     (∀ c t, rest = c :: t → is_alnum c = false) →
     html_tag (pre ++ "<"%char :: name ++ rest) = name).
Proof.
  assert (∀ s v, tag_here s = Some v →
                 v ≠ [] ∧ Forall (fun c => is_alnum c = true) v ∧
                 ∃ t, s = "<"%char :: v ++ t) as Hhere.
  { intros [|c0 [|c1 t]] v; try discriminate. unfold tag_here.
    destruct (ascii_eqb "<" c0) eqn:E0; [|discriminate].
    destruct (is_alnum c1) eqn:E1; [|discriminate]. simpl.
    intros [= <-]. apply ascii_eqb_eq in E0 as <-. split_and!.
    - done.
    - constructor; [done | apply take_run_Forall].
    - exists (drop_run is_alnum t). simpl. by rewrite take_drop_run. }
  assert (∀ html, html_tag html ≠ [] ∧
                  Forall (fun c => is_alnum c = true) (html_tag html) ∧
                  (html_tag html = str "unknown" ∨
                   ∃ pre t, html = pre ++ "<"%char :: html_tag html ++ t))
    as Hshape.
  { intros html. rewrite html_tag_first_match.
    destruct (first_match tag_here html) as [v|] eqn:E; simpl.
    - apply first_match_spec in E as (pre & post & -> & Hv & _).
      destruct (Hhere _ _ Hv) as (Hne & Hall & t & ->).
      split_and!; [done | done |]. right. by exists pre, t.
    - split_and!; [done | | by left].
      apply Forall_forall. intros c Hc.
      apply (proj1 (Forall_forall (fun c => is_alnum c = true)
                      (str "unknown"))); [|done].
      by repeat constructor. }
  split_and!.
  - intros r fv H. extract_ok H cr fs. reflexivity.
  - intros html. destruct (Hshape html) as (? & ? & _). done.
  - intros h. destruct (Hshape (lower h)) as (_ & Hall & [-> | Hin]).
    + by repeat constructor.
    + destruct Hin as (pre & t & Heq). apply Forall_forall. intros c Hc.
      assert (c ∈ lower h) as Hch.
      { rewrite Heq. rewrite elem_of_app, elem_of_cons, elem_of_app. tauto. }
      unfold lower in Hch.
      apply list_elem_of_In, in_map_iff in Hch as (c' & <- & _).
      apply is_alnum_lower.
      by apply (proj1 (Forall_forall _ _) Hall).
  - intros html Hno. rewrite html_tag_first_match.
    destruct (first_match tag_here html) as [v|] eqn:E; [|reflexivity].
    apply first_match_spec in E as (pre & post & -> & Hv & _).
    destruct (Hhere _ _ Hv) as (_ & _ & t & ->). destruct Hno.
    rewrite elem_of_app, elem_of_cons. tauto.
  - intros pre name rest Hpre Hne Hall Hrest.
    rewrite html_tag_first_match.
    assert (first_match tag_here (pre ++ "<"%char :: name ++ rest)
            = Some name) as ->; [|reflexivity].
    apply first_match_spec. exists pre, ("<"%char :: name ++ rest).
    split_and!; [done | |].
    + destruct name as [|c1 name]; [done|].
      apply Forall_cons in Hall as [Hc1 Hall]. unfold tag_here.
      cbn [app]. rewrite Hc1. simpl. by rewrite take_run_all.
    + intros a [|x b] -> Hb; [done|]. clear Hb.
      destruct (tag_here ((x :: b) ++ "<"%char :: name ++ rest))
        as [v|] eqn:E; [|reflexivity].
      destruct (Hhere _ _ E) as (_ & _ & t & Heq).
      injection Heq as -> _. destruct Hpre.
      rewrite elem_of_app, elem_of_cons. tauto.
Qed.

(** ** The alt text *)

Lemma lazy_class_quoted (pre s : list ascii) (g : groups) :
  lazy_class not_line_feed
    (fun s1 _ => rmatch false quote_class s1
                   (Some (consumed (pre ++ s) s1)) (fun _ g' => Some g'))
    s g
  = (fun v => Some (pre ++ v)) <$> quoted_value s.
Proof.
  revert pre. induction s as [|c s IH]; intros pre.
  - cbn [lazy_class]. by rewrite class_quote.
  - cbn [lazy_class quoted_value]. rewrite class_quote.
    destruct (is_quote c).
    + simpl. by rewrite consumed_app, app_nil_r.
    + unfold not_line_feed. destruct (ascii_eqb c line_feed); [reflexivity|].
      cbn [negb]. replace (pre ++ c :: s) with ((pre ++ [c]) ++ s)
        by by rewrite <- app_assoc.
      rewrite IH. destruct (quoted_value s); simpl; [|reflexivity].
      by rewrite <- app_assoc.
Qed.

Lemma lazy_class_quoted0 (t : list ascii) (g : groups) :
  lazy_class not_line_feed
    (fun s1 _ => rmatch false quote_class s1
                   (Some (consumed t s1)) (fun _ g' => Some g'))
    t g
  = Some <$> quoted_value t.
Proof.
  pose proof (lazy_class_quoted [] t g) as H. cbn [app] in H. rewrite H.
  by destruct (quoted_value t).
Qed.

Lemma match_here_alt (s : list ascii) :
  match_here false alt_pat s = Some <$> alt_here s.
Proof.
  unfold match_here, alt_pat, alt_here.
  rewrite rmatch_Seq, rmatch_Lits. destruct (startswith (str "alt=") s);
    [|reflexivity].
  change (length (str "alt=")) with 4%nat.
  rewrite rmatch_Seq, class_quote. destruct (drop 4 s) as [|q t];
    [reflexivity|].
  destruct (is_quote q); [|reflexivity].
  rewrite rmatch_Seq, rmatch_Group, rmatch_LazyStar.
  rewrite (lazy_loop_class Any not_line_feed) by (apply class_Any || done).
  cbv beta. rewrite (lazy_class_quoted0 t None).
  by destruct (quoted_value t).
Qed.

Lemma alt_content_first_match (html : list ascii) :
  alt_content html =
  match first_match alt_here html with
  | Some v => strip v
  | None => []
  end.
Proof.
  unfold alt_content, alt_match.
  rewrite (search_first_match _ _ match_here_alt).
  by destruct (first_match alt_here html).
Qed.

Lemma quoted_value_spec (s v : list ascii) :
  quoted_value s = Some v ↔
  ∃ q rest, s = v ++ q :: rest ∧ is_quote q = true ∧
            Forall (fun c => is_quote c = false ∧ c ≠ line_feed) v.
Proof.
  revert v. induction s as [|c s IH]; intros v; cbn [quoted_value].
  - split; [done|]. intros (q & rest & Heq & _). by destruct v.
  - destruct (is_quote c) eqn:Hq.
    + split.
      * intros [= <-]. exists c, s. by repeat split.
      * intros (q & rest & Heq & Hq' & Hall). destruct v as [|x v]; [done|].
        injection Heq as -> _. apply Forall_cons in Hall as [[Hx _] _].
        congruence.
    + destruct (ascii_eqb c line_feed) eqn:Hlf.
      * apply ascii_eqb_eq in Hlf. split; [done|].
        intros (q & rest & Heq & Hq' & Hall). destruct v as [|x v].
        -- injection Heq as -> _. congruence.
        -- injection Heq as -> _. by apply Forall_cons in Hall as [[_ ?] _].
      * split.
        -- intros H. destruct (quoted_value s) as [w|]; [|done].
           simpl in H. injection H as <-.
           destruct (proj1 (IH w) eq_refl) as (q & rest & -> & Hq' & Hall).
           exists q, rest. split_and!; [done | done |].
           constructor; [|done]. split; [done|]. intros ->.
           assert (ascii_eqb line_feed line_feed = true)
             by by apply ascii_eqb_eq. congruence.
        -- intros (q & rest & Heq & Hq' & Hall). destruct v as [|x v].
           ++ injection Heq as -> _. congruence.
           ++ injection Heq as -> ->.
              apply Forall_cons in Hall as [_ Hall].
              assert (quoted_value (v ++ q :: rest) = Some v) as ->
                by (apply IH; eauto). reflexivity.
Qed.

Lemma alt_here_contains (s v : list ascii) :
  alt_here s = Some v → startswith (str "alt=") s = true.
Proof. unfold alt_here. by destruct (startswith (str "alt=") s). Qed.

Lemma first_match_alt_contains (html v : list ascii) :
  first_match alt_here html = Some v → has_substring (str "alt=") html.
Proof.
  intros (pre & post & -> & Hv & _)%first_match_spec.
  apply alt_here_contains, startswith_spec in Hv as [t ->].
  by exists pre, t.
Qed.

Lemma lstrip_elem (x : ascii) (s : list ascii) : x ∈ lstrip s → x ∈ s.
Proof.
  induction s as [|c s IH]; simpl; [done|].
  destruct (isspace c); [|done]. intros H. right. by apply IH.
Qed.

Lemma strip_elem (x : ascii) (s : list ascii) : x ∈ strip s → x ∈ s.
Proof.
  unfold strip, rstrip. intros H.
  apply list_elem_of_In, in_rev, list_elem_of_In, lstrip_elem in H.
  apply list_elem_of_In, in_rev, list_elem_of_In in H.
  by apply lstrip_elem.
Qed.

Lemma strip_stripped (s : list ascii) :
  lstrip (strip s) = strip s ∧ rstrip (strip s) = strip s.
Proof.
  split; [|apply rstrip_idemp]. unfold strip.
  destruct (lstrip s) as [|x u] eqn:E; [reflexivity|].
  pose proof (lstrip_head _ _ _ E) as Hx.
  rewrite rstrip_cons by done. simpl. by rewrite Hx.
Qed.

Lemma startswith_app_l (p u w : list ascii) :
  startswith p (u ++ w) = true → (length p ≤ length u)%nat →
  startswith p u = true.
Proof.
  revert u. induction p as [|a p IH]; intros u; [done|].
  destruct u as [|b u]; simpl; [lia|].
  rewrite !andb_true_iff. intros [Hab Hp] Hlen. split; [done|].
  apply IH; [done | lia].
Qed.

(** The alt text when the first alt= is followed by a quoted value, and
    when no alt= is followed by a quote. *)
Lemma alt_content_quoted (pre : list ascii) (q : ascii) (v : list ascii)
    (q' : ascii) (rest : list ascii) :
  contains (str "alt=") (pre ++ str "alt") = false →
  is_quote q = true → is_quote q' = true →
  Forall (fun c => is_quote c = false ∧ c ≠ line_feed) v →
  alt_content (pre ++ str "alt=" ++ q :: v ++ q' :: rest) = strip v.
Proof.
  intros Hpre Hq Hq' Hv.
  rewrite alt_content_first_match.
  assert (first_match alt_here (pre ++ str "alt=" ++ q :: v ++ q' :: rest)
          = Some v) as ->; [|reflexivity].
  apply first_match_spec.
  exists pre, (str "alt=" ++ q :: v ++ q' :: rest). split_and!; [done | |].
  + unfold alt_here. cbn [str list_ascii_of_string app startswith drop].
    unfold ascii_eqb. rewrite !Ascii.eqb_refl. cbn [andb]. rewrite Hq.
    apply quoted_value_spec. by exists q', rest.
  + intros a b -> Hb. unfold alt_here.
    destruct (startswith (str "alt=")
                (b ++ str "alt=" ++ q :: v ++ q' :: rest)) eqn:E;
      [|reflexivity].
    exfalso. apply not_true_iff_false in Hpre. apply Hpre.
    apply contains_spec. exists a.
    change (str "alt=" ++ q :: v ++ q' :: rest)
      with (str "alt" ++ "="%char :: q :: v ++ q' :: rest) in E.
    rewrite app_assoc in E. apply startswith_app_l in E.
    * apply startswith_spec in E as [t Ht]. exists t.
      by rewrite <- app_assoc, Ht.
    * rewrite length_app. destruct b; [done|]. simpl. lia.
Qed.



(** X10. The alt text: it is empty when the HTML has no alt=; it never
    holds a quote character or a line feed and has no white space at either
    end; and when the first alt= is followed by a quote, a value without
    quote or line feed, and a quote, the alt text is that value, trimmed. *)
Theorem alt_content_shape :
  (∀ html, ¬ has_substring (str "alt=") html → alt_content html = []) ∧
  (∀ html,
     Forall (fun c => is_quote c = false ∧ c ≠ line_feed) (alt_content html) ∧
     lstrip (alt_content html) = alt_content html ∧
     rstrip (alt_content html) = alt_content html) ∧
  (∀ pre q v q' rest,
     contains (str "alt=") (pre ++ str "alt") = false →
     is_quote q = true → is_quote q' = true →
     Forall (fun c => is_quote c = false ∧ c ≠ line_feed) v →
     alt_content (pre ++ str "alt=" ++ q :: v ++ q' :: rest) = strip v).
Proof.
  split_and!.
  - intros html Hno. rewrite alt_content_first_match.
    destruct (first_match alt_here html) as [v|] eqn:E; [|reflexivity].
    destruct Hno. by eapply first_match_alt_contains.
  - intros html. rewrite alt_content_first_match.
    destruct (first_match alt_here html) as [v|] eqn:E.
    + split; [|apply strip_stripped].
      apply first_match_spec in E as (pre & post & -> & Hv & _).
      unfold alt_here in Hv. destruct (startswith _ post); [|done].
      destruct (drop 4 post) as [|q t]; [done|].
      destruct (is_quote q); [|done].
      apply quoted_value_spec in Hv as (q' & rest & _ & _ & Hall).
      apply Forall_forall. intros c Hc%strip_elem.
      by apply (proj1 (Forall_forall _ _) Hall).
    + split_and!; [constructor | reflexivity | reflexivity].
  - apply alt_content_quoted.
Qed.

Lemma extract_everything_alt_fields (r : row) (fv : series) :
  extract_everything r = Ok fv →
  let html := lower (py_str (affected_html_elements r)) in
  series_get "alt_is_generic" fv =
    Some (flag (existsb (text_eqb (alt_content html)) placeholder_set)) ∧
  series_get "alt_is_filename" fv =
    Some (flag (matched (search false filename_pat (alt_content html)))) ∧
  series_get "has_redundant_prefix" fv =
    Some (flag (matched (search false redundant_pat html))).
Proof. intros H. extract_ok H cr fs. repeat split. Qed.

Lemma split_from_nil (s cur : list ascii) :
  split_from s cur = [] ↔ cur = [] ∧ Forall (fun c => isspace c = true) s.
Proof.
  revert cur. induction s as [|c s IH]; intros cur; cbn [split_from].
  - destruct cur as [|a cur].
    + split; [intros _; split; [done | constructor] | done].
    + split; [done | by intros [? _]].
  - destruct (isspace c) eqn:Hc.
    + destruct cur as [|x cur].
      * rewrite IH. split; intros [_ H]; split; try done.
        -- by constructor.
        -- by apply Forall_cons in H as [_ ?].
      * split; [done | by intros [? _]].
    + rewrite IH. split; [by intros [? _]|].
      intros [_ H]. apply Forall_cons in H as [H _]. congruence.
Qed.

Lemma lstrip_all_space (s : list ascii) :
  Forall (fun c => isspace c = true) s → lstrip s = [].
Proof. induction 1 as [|c s Hc _ IH]; simpl; [done | by rewrite Hc]. Qed.

Lemma alt_content_no_words (html : list ascii) :
  split (alt_content html) = [] ↔ alt_content html = [].
Proof.
  split; [|by intros ->]. unfold split. intros [_ H]%split_from_nil.
  destruct (alt_content_first_match html) as [].
  assert (lstrip (alt_content html) = alt_content html) as <-.
  { rewrite alt_content_first_match.
    destruct (first_match alt_here html); [apply strip_stripped | done]. }
  by apply lstrip_all_space.
Qed.

Lemma len_zero {A : Type} (l : list A) : len l = 0 ↔ l = [].
Proof. unfold len. destruct l; simpl; split; try done; lia. Qed.

(** X11. In a returned feature row the alt features agree with each
    other: alt_word_count is 0 exactly when the alt text is empty;
    is_alt_empty is 1 exactly when has_alt_attr is 1 and alt_word_count is
    0; and when is_alt_empty is 1, alt_is_generic and alt_is_filename are
    0. *)
Theorem alt_features_consistent (r : row) (fv : series) :
  extract_everything r = Ok fv →
  let html := lower (py_str (affected_html_elements r)) in
  (series_get "alt_word_count" fv = Some (VInt 0) ↔ alt_content html = []) ∧
  (series_get "is_alt_empty" fv = Some (VInt 1) ↔
     series_get "has_alt_attr" fv = Some (VInt 1) ∧
     series_get "alt_word_count" fv = Some (VInt 0)) ∧
  (series_get "is_alt_empty" fv = Some (VInt 1) →
     series_get "alt_is_generic" fv = Some (VInt 0) ∧
     series_get "alt_is_filename" fv = Some (VInt 0)).
Proof.
  intros H html.
  destruct (extract_everything_fields r fv H)
    as (_ & _ & Hattr & Hempty & Hwc & _).
  destruct (extract_everything_alt_fields r fv H) as (Hgen & Hfile & _).
  fold html in Hattr, Hempty, Hwc, Hgen, Hfile.
  rewrite Hattr, Hempty, Hwc, Hgen, Hfile. clear Hattr Hempty Hwc Hgen Hfile.
  assert (Some (VInt (len (split (alt_content html)))) = Some (VInt 0)
          ↔ alt_content html = []) as Hzero.
  { rewrite <- alt_content_no_words, <- len_zero. split; [|by intros ->].
    by intros [= ->]. }
  unfold text_eqb. split_and!.
  - exact Hzero.
  - rewrite Hzero.
    case_bool_decide as Ha; destruct (contains (str "alt=") html); simpl;
      (split; [intros [=]; by split
              | intros [Hc' Ha']; first [reflexivity | discriminate | done]]).
  - case_bool_decide as Ha; [|by destruct (contains _ html)].
    intros _. rewrite Ha. split; reflexivity.
Qed.

Lemma alt_features_consistent_witness :
  series_get "alt_word_count" img_alt_empty_features = Some (VInt 0) ∧
  series_get "alt_is_generic" img_alt_empty_features = Some (VInt 0).
Proof.
  destruct (alt_features_consistent img_alt_empty_row img_alt_empty_features
              eq_refl) as (Hwc & _ & Hgen).
  split.
  - apply Hwc. reflexivity.
  - apply Hgen. reflexivity.
Defined.

(** X12. In a returned feature row for HTML without alt=, every alt
    feature is 0: has_alt_attr, is_alt_empty, alt_word_count,
    alt_is_generic and alt_is_filename. *)
Theorem no_alt_features_zero (r : row) (fv : series) :
  extract_everything r = Ok fv →
  ¬ has_substring (str "alt=") (lower (py_str (affected_html_elements r))) →
  series_get "has_alt_attr" fv = Some (VInt 0) ∧
  series_get "is_alt_empty" fv = Some (VInt 0) ∧
  series_get "alt_word_count" fv = Some (VInt 0) ∧
  series_get "alt_is_generic" fv = Some (VInt 0) ∧
  series_get "alt_is_filename" fv = Some (VInt 0).
Proof.
  intros H Hno.
  destruct (extract_everything_fields r fv H)
    as (_ & _ & Hattr & Hempty & Hwc & _).
  destruct (extract_everything_alt_fields r fv H) as (Hgen & Hfile & _).
  rewrite Hattr, Hempty, Hwc, Hgen, Hfile.
  assert (alt_content (lower (py_str (affected_html_elements r))) = []) as ->.
  { rewrite alt_content_first_match.
    destruct (first_match alt_here _) as [v|] eqn:E; [|reflexivity].
    destruct Hno. by eapply first_match_alt_contains. }
  apply contains_false in Hno. rewrite Hno. split_and!; reflexivity.
Qed.


Lemma no_alt_features_zero_witness :
  series_get "has_alt_attr" heading_features = Some (VInt 0) ∧
  series_get "is_alt_empty" heading_features = Some (VInt 0) ∧
  series_get "alt_word_count" heading_features = Some (VInt 0) ∧
  series_get "alt_is_generic" heading_features = Some (VInt 0) ∧
  series_get "alt_is_filename" heading_features = Some (VInt 0).
Proof.
  apply (no_alt_features_zero heading_row heading_features eq_refl).
  apply contains_false. reflexivity.
Defined.

(** ** Boilerplate phrases and file names *)

Lemma search_matched (r : regex) (s : list ascii) :
  matched (search false r s) = true ↔
  ∃ pre post, s = pre ++ post ∧ matched (match_here false r post) = true.
Proof.
  induction s as [|c s IH]; rewrite search_unfold.
  - destruct (match_here false r []) eqn:E; simpl.
    + split; [intros _ | done]. exists [], []. by rewrite E.
    + split; [done|]. intros (pre & post & Heq & H). symmetry in Heq.
      apply app_eq_nil in Heq as [_ ->]. by rewrite E in H.
  - destruct (match_here false r (c :: s)) eqn:E; simpl.
    + split; [intros _ | done]. exists [], (c :: s). by rewrite E.
    + rewrite IH. split.
      * intros (pre & post & -> & H). by exists (c :: pre), post.
      * intros ([|c' pre] & post & Heq & H).
        -- simpl in Heq. subst post. by rewrite E in H.
        -- injection Heq as -> ->. by exists pre, post.
Qed.

Lemma is_Some_or {A : Type} (a b : option A) :
  is_Some (match a with Some m => Some m | None => b end)
  ↔ is_Some a ∨ is_Some b.
Proof.
  destruct a; split; try (intros [H | H]); eauto; by destruct H.
Qed.

Lemma rmatch_Alts (ps : list (list ascii)) s g k :
  ps ≠ [] →
  is_Some (rmatch false (Alts ps) s g k) ↔
  ∃ p, p ∈ ps ∧ startswith p s = true ∧ is_Some (k (drop (length p) s) g).
Proof.
  induction ps as [|p ps IH]; [done|]. intros _. destruct ps as [|p2 ps].
  - cbn [Alts]. rewrite rmatch_Lits. split.
    + destruct (startswith p s) eqn:E; [|by intros []].
      intros H. exists p. split_and!; [by left | done | done].
    + intros (p' & ->%list_elem_of_singleton & -> & H). done.
  - change (Alts (p :: p2 :: ps)) with (Alt (Lits p) (Alts (p2 :: ps))).
    rewrite rmatch_Alt, is_Some_or, IH by done. rewrite rmatch_Lits. split.
    + intros [H | (p' & Hin & Hp & H)].
      * destruct (startswith p s) eqn:E; [|by destruct H].
        exists p. split_and!; [by left | done | done].
      * exists p'. split_and!; [by right | done | done].
    + intros (p' & Hin & Hp & H). apply elem_of_cons in Hin as [-> | Hin].
      * left. by rewrite Hp.
      * right. by exists p'.
Qed.

Lemma matched_is_Some (m : option groups) : matched m = true ↔ is_Some m.
Proof.
  destruct m; simpl; split; intros H;
    first [done | by eexists | by destruct H].
Qed.

Lemma match_here_redundant (s : list ascii) :
  matched (match_here false redundant_pat s) = true ↔
  ∃ p, p ∈ redundant_phrases ∧ startswith p s = true.
Proof.
  rewrite matched_is_Some. unfold match_here.
  change redundant_pat with (Group (Alts redundant_phrases)).
  rewrite rmatch_Group, rmatch_Alts by done. split.
  - intros (p & Hin & Hp & _). by exists p.
  - intros (p & Hin & Hp). exists p. split_and!; [done | done | by eexists].
Qed.

(** X13. In a returned feature row, has_redundant_prefix is 1 exactly
    when the lower-cased HTML contains one of the seven phrases image of,
    photo of, picture of, link to, click here, button, graphic of, anywhere
    in it. *)
Theorem has_redundant_prefix_iff (r : row) (fv : series) :
  extract_everything r = Ok fv →
  let html := lower (py_str (affected_html_elements r)) in
  (series_get "has_redundant_prefix" fv = Some (VInt 1) ↔
     ∃ p, p ∈ redundant_phrases ∧ has_substring p html) ∧
  (series_get "has_redundant_prefix" fv = Some (VInt 0) ↔
     ∀ p, p ∈ redundant_phrases → ¬ has_substring p html).
Proof.
  intros H html.
  destruct (extract_everything_alt_fields r fv H) as (_ & _ & Hred).
  fold html in Hred. rewrite Hred.
  assert (matched (search false redundant_pat html) = true ↔
          ∃ p, p ∈ redundant_phrases ∧ has_substring p html) as Hiff.
  { rewrite search_matched. split.
    - intros (pre & post & -> & (p & Hin & [t ->]%startswith_spec)
                %match_here_redundant).
      exists p. split; [done|]. by exists pre, t.
    - intros (p & Hin & pre & t & ->). exists pre, (p ++ t). split; [done|].
      apply match_here_redundant. exists p. split; [done|].
      apply startswith_spec. by exists t. }
  destruct (matched (search false redundant_pat html)); simpl; split.
  - split; [intros _; by apply Hiff | done].
  - split; [done|]. intros Hnone.
    destruct (proj1 Hiff eq_refl) as (p & Hin & Hsub). by destruct (Hnone p).
  - split; [done|]. intros Hex. apply Hiff in Hex. done.
  - split; [|done]. intros _ p Hin Hsub.
    assert (false = true) by (apply Hiff; eauto). done.
Qed.

Lemma has_redundant_prefix_iff_witness :
  series_get "has_redundant_prefix" heading_features = Some (VInt 0) ∧
  ¬ has_substring (str "button")
      (lower (py_str (affected_html_elements heading_row))).
Proof.
  destruct (has_redundant_prefix_iff heading_row heading_features eq_refl)
    as [_ [H0 _]].
  split; [reflexivity|]. apply H0; [reflexivity|].
  unfold redundant_phrases. rewrite !elem_of_cons. tauto.
Defined.

Lemma rmatch_Eol_Some s g :
  is_Some (rmatch false Eol s g (fun _ g' => Some g')) ↔
  s = [] ∨ s = [line_feed].
Proof.
  destruct s as [|c [|c2 s]]; cbn [rmatch].
  - split; [by left | by eexists].
  - destruct (ascii_eqb c line_feed) eqn:E.
    + apply ascii_eqb_eq in E as ->. split; [by right | by eexists].
    + split; [by intros [] | intros [? | [= ->]]; [done|]].
      assert (ascii_eqb line_feed line_feed = true) by by apply ascii_eqb_eq.
      congruence.
  - split; [by intros [] | by intros [? | ?]].
Qed.

Lemma match_here_filename (s : list ascii) :
  matched (match_here false filename_pat s) = true ↔
  ∃ e, e ∈ image_extensions ∧
       (s = "."%char :: e ∨ s = "."%char :: e ++ [line_feed]).
Proof.
  rewrite matched_is_Some. unfold match_here.
  change filename_pat
    with (Seq (Lit ".") (Seq (Group (Alts image_extensions)) Eol)).
  rewrite rmatch_Seq, (class_Lit "."). destruct s as [|c s].
  - split; [by intros [] | by intros (e & _ & [? | ?])].
  - destruct (ascii_eqb "." c) eqn:E.
    + apply ascii_eqb_eq in E as <-.
      rewrite rmatch_Seq, rmatch_Group, rmatch_Alts by done. split.
      * intros (e & Hin & [t Ht]%startswith_spec & Hend).
        apply rmatch_Eol_Some in Hend. exists e. split; [done|].
        subst s. rewrite drop_app_length in Hend.
        destruct Hend as [-> | ->]; [left | right]; by rewrite ?app_nil_r.
      * intros (e & Hin & [[= ->] | [= ->]]); exists e.
        -- split_and!;
             [done | apply startswith_spec; exists []; by rewrite app_nil_r |].
           apply rmatch_Eol_Some. left. by rewrite drop_all.
        -- split_and!;
             [done | apply startswith_spec; by exists [line_feed] |].
           apply rmatch_Eol_Some. right. by rewrite drop_app_length.
    + split; [by intros [] |]. intros (e & _ & [[= -> _] | [= -> _]]);
        by rewrite (proj2 (ascii_eqb_eq "." ".") eq_refl) in E.
Qed.

Lemma rstrip_last (s u : list ascii) (c : ascii) :
  rstrip s = s → s = u ++ [c] → isspace c = false.
Proof.
  unfold rstrip. intros Hs ->.
  assert (lstrip (rev (u ++ [c])) = rev (u ++ [c])) as H.
  { apply (f_equal (@rev ascii)) in Hs. by rewrite rev_involutive in Hs. }
  rewrite rev_app_distr in H. cbn [rev app] in H. by eapply lstrip_head.
Qed.

(** X14. In a returned feature row, alt_is_filename is 1 exactly when the
    alt text ends in a point followed by one of jpg, png, gif, jpeg, svg,
    webp (in lower case, as the HTML was lower-cased). *)
Theorem alt_is_filename_iff (r : row) (fv : series) :
  extract_everything r = Ok fv →
  let alt := alt_content (lower (py_str (affected_html_elements r))) in
  series_get "alt_is_filename" fv = Some (VInt 1) ↔
  ∃ pre e, e ∈ image_extensions ∧ alt = pre ++ "."%char :: e.
Proof.
  intros H alt.
  destruct (extract_everything_alt_fields r fv H) as (_ & Hfile & _).
  fold alt in Hfile. rewrite Hfile.
  assert (rstrip alt = alt) as Hstripped.
  { subst alt. rewrite alt_content_first_match.
    destruct (first_match alt_here _); [apply strip_stripped | done]. }
  assert (matched (search false filename_pat alt) = true ↔
          ∃ pre e, e ∈ image_extensions ∧ alt = pre ++ "."%char :: e) as Hiff.
  { rewrite search_matched. split.
    - intros (pre & post & Heq & (e & Hin & Hpost)%match_here_filename).
      destruct Hpost as [-> | ->]; [by exists pre, e|].
      exfalso.
      assert (isspace line_feed = false) as Hsp; [|done].
      apply (rstrip_last alt (pre ++ "."%char :: e)); [done|].
      rewrite Heq. by rewrite <- app_assoc.
    - intros (pre & e & Hin & ->). exists pre, ("."%char :: e).
      split; [done|]. apply match_here_filename. exists e. by split; [|left]. }
  rewrite <- Hiff. destruct (matched (search false filename_pat alt)); simpl;
    split; intros Heq; first [done | discriminate Heq].
Qed.

Lemma alt_is_filename_iff_witness :
  alt_content (lower (py_str (affected_html_elements logo_row)))
    = str "logo.png" ∧
  series_get "alt_is_filename" logo_features = Some (VInt 1).
Proof.
  split; [reflexivity|].
  apply (alt_is_filename_iff logo_row logo_features eq_refl).
  exists (str "logo"), (str "png"). split; [|reflexivity].
  unfold image_extensions. rewrite !elem_of_cons. tauto.
Defined.

(** ** Contrast ratio and font size *)

Lemma space_not_number (c : ascii) :
  isspace c = true → is_number_char c = false ∧ is_quote c = false.
Proof. destruct c as [[] [] [] [] [] [] [] []]; done. Qed.

Lemma rmatch_number_group s g :
  rmatch false (Group (Plus number_class)) s g (fun _ g' => Some g')
  = Some <$> number_here s.
Proof.
  rewrite (rmatch_Group_Plus_class _ _ _ _ class_number). unfold number_here.
  destruct s as [|c t]; [reflexivity|]. by destruct (is_number_char c).
Qed.

Lemma match_here_cr (s : list ascii) :
  match_here false cr_pat s = Some <$> cr_here s.
Proof.
  unfold match_here, cr_pat, cr_here. rewrite rmatch_Seq, rmatch_Lits.
  destruct (startswith (str "contrastratio':") s); [|reflexivity].
  change (length (str "contrastratio':")) with 15%nat.
  rewrite rmatch_Seq, rmatch_Star.
  rewrite (star_loop_class Space isspace) by (apply class_Space || done).
  rewrite star_class_exclusive.
  - apply rmatch_number_group.
  - intros c s' g' Hc. rewrite rmatch_number_group. unfold number_here.
    by rewrite (proj1 (space_not_number c Hc)).
Qed.

Lemma match_here_fs (s : list ascii) :
  match_here false fs_pat s = Some <$> fs_here s.
Proof.
  unfold match_here, fs_pat, fs_here. rewrite rmatch_Seq, rmatch_Lits.
  destruct (startswith (str "fontsize':") s); [|reflexivity].
  change (length (str "fontsize':")) with 10%nat.
  rewrite rmatch_Seq, rmatch_Star.
  rewrite (star_loop_class Space isspace) by (apply class_Space || done).
  rewrite star_class_exclusive.
  - rewrite rmatch_Seq, class_quote.
    destruct (drop_run isspace (drop 10 s)) as [|q t]; [reflexivity|].
    destruct (is_quote q); [|reflexivity]. apply rmatch_number_group.
  - intros c s' g' Hc. rewrite rmatch_Seq, class_quote.
    by rewrite (proj2 (space_not_number c Hc)).
Qed.

Lemma cr_here_contains (s v : list ascii) :
  cr_here s = Some v → startswith (str "contrastratio':") s = true.
Proof. unfold cr_here. by destruct (startswith _ s). Qed.

Lemma fs_here_contains (s v : list ascii) :
  fs_here s = Some v → startswith (str "fontsize':") s = true.
Proof. unfold fs_here. by destruct (startswith _ s). Qed.

Lemma first_match_absent (here : list ascii → option (list ascii))
    (key s : list ascii) :
  (∀ t v, here t = Some v → startswith key t = true) →
  ¬ has_substring key s → first_match here s = None.
Proof.
  intros Hhere Hno. destruct (first_match here s) as [v|] eqn:E; [|done].
  apply first_match_spec in E as (pre & post & -> & Hv & _).
  apply Hhere, startswith_spec in Hv as [t ->]. destruct Hno.
  by exists pre, t.
Qed.

Lemma extract_everything_numbers (r : row) (fv : series) :
  extract_everything r = Ok fv →
  let supp := lower (py_str (supplementary_information r)) in
  float_or_nan (search false cr_pat supp)
    = Ok (default VNaN (series_get "contrast_ratio" fv)) ∧
  float_or_nan (search false fs_pat supp)
    = Ok (default VNaN (series_get "font_size" fv)) ∧
  is_Some (series_get "contrast_ratio" fv) ∧
  is_Some (series_get "font_size" fv).
Proof.
  intros H supp. unfold extract_everything in H. fold supp in H.
  destruct (float_or_nan (search false cr_pat supp)) as [cr|];
    [|discriminate H].
  destruct (float_or_nan (search false fs_pat supp)) as [fs|];
    [|discriminate H].
  injection H as <-. split_and!; try reflexivity; by eexists.
Qed.

(** X15. When the lower-cased metadata has neither the contrast ratio key
    nor the font size key, the extraction returns a feature row, and
    contrast_ratio and font_size are both [NaN] in it. *)
Theorem metadata_defaults (r : row) :
  let supp := lower (py_str (supplementary_information r)) in
  ¬ has_substring (str "contrastratio':") supp →
  ¬ has_substring (str "fontsize':") supp →
  ∃ fv, extract_everything r = Ok fv ∧
        series_get "contrast_ratio" fv = Some VNaN ∧
        series_get "font_size" fv = Some VNaN.
Proof.
  intros supp Hcr Hfs. unfold extract_everything. fold supp.
  rewrite (search_first_match _ _ match_here_cr).
  rewrite (search_first_match _ _ match_here_fs).
  rewrite (first_match_absent cr_here _ supp cr_here_contains Hcr).
  rewrite (first_match_absent fs_here _ supp fs_here_contains Hfs).
  eexists. split_and!; reflexivity.
Qed.

Lemma metadata_defaults_witness :
  ∃ fv, extract_everything heading_row = Ok fv ∧
        series_get "contrast_ratio" fv = Some VNaN ∧
        series_get "font_size" fv = Some VNaN.
Proof.
  apply (metadata_defaults heading_row); apply contains_false; reflexivity.
Defined.

Lemma number_here_run (num rest : list ascii) :
  num ≠ [] → Forall (fun c => is_number_char c = true) num →
  (∀ c t, rest = c :: t → is_number_char c = false) →
  number_here (num ++ rest) = Some num.
Proof.
  intros Hne Hnum Hrest. destruct num as [|c num]; [done|].
  apply Forall_cons in Hnum as [Hc Hnum]. unfold number_here. cbn [app].
  by rewrite Hc, take_run_all.
Qed.

(** X16. When the first contrast ratio key of the lower-cased metadata is
    followed by white space (possibly none) and then by a run of digits and
    points that ends there, the pattern captures exactly that run: if
    [float] accepts the run, every returned row carries its value as
    contrast_ratio, and if [float] rejects it the extraction raises. *)
Theorem contrast_ratio_reads_number (r : row)
    (pre ws num rest : list ascii) :
  let supp := lower (py_str (supplementary_information r)) in
  supp = pre ++ str "contrastratio':" ++ ws ++ num ++ rest →
  contains (str "contrastratio':") (pre ++ str "contrastratio'") = false →
  Forall (fun c => isspace c = true) ws →
  num ≠ [] → Forall (fun c => is_number_char c = true) num →
  (∀ c t, rest = c :: t → is_number_char c = false) →
  search false cr_pat supp = Some (Some num) ∧
  (∀ q fv, py_float num = Ok q → extract_everything r = Ok fv →
           series_get "contrast_ratio" fv = Some (VFloat q)) ∧
  (py_float num = Raise ValueError →
   extract_everything r = Raise ValueError).
Proof.
  intros supp Hsupp Hpre Hws Hne Hnum Hrest.
  assert (search false cr_pat supp = Some (Some num)) as Hsearch.
  { rewrite (search_first_match _ _ match_here_cr).
    assert (first_match cr_here supp = Some num) as ->; [|reflexivity].
    apply first_match_spec.
    exists pre, (str "contrastratio':" ++ ws ++ num ++ rest).
    split_and!; [done | |].
    - unfold cr_here.
      assert (startswith (str "contrastratio':")
                (str "contrastratio':" ++ ws ++ num ++ rest) = true) as ->
        by (apply startswith_spec; by eexists).
      change 15%nat with (length (str "contrastratio':")).
      rewrite drop_app_length, drop_run_all; [by apply number_here_run | done |].
      intros c t Heq. destruct num as [|x num]; [done|].
      injection Heq as <- _. apply Forall_cons in Hnum as [Hx _].
      destruct (isspace x) eqn:E; [|done].
      apply space_not_number in E as [E _]. congruence.
    - intros a b -> Hb. destruct (cr_here _) as [v|] eqn:E; [|reflexivity].
      exfalso. apply cr_here_contains in E.
      apply not_true_iff_false in Hpre. apply Hpre, contains_spec. exists a.
      change (str "contrastratio':" ++ ws ++ num ++ rest)
        with (str "contrastratio'" ++ ":"%char :: ws ++ num ++ rest) in E.
      rewrite app_assoc in E. apply startswith_app_l in E.
      + apply startswith_spec in E as [t Ht]. exists t.
        by rewrite <- app_assoc, Ht.
      + rewrite length_app. destruct b; [done|]. simpl. lia. }
  split_and!; [exact Hsearch | |].
  - intros q fv Hq H. unfold extract_everything in H. fold supp in H.
    rewrite Hsearch in H.
    change (float_or_nan (Some (Some num))) with (VFloat <$> py_float num) in H.
    rewrite Hq in H. cbn [fmap result_fmap mbind result_bind] in H.
    destruct (float_or_nan (search false fs_pat supp)) as [fs|];
      [|discriminate H].
    by injection H as <-.
  - intros Hq. unfold extract_everything. fold supp.
    rewrite Hsearch.
    change (float_or_nan (Some (Some num))) with (VFloat <$> py_float num).
    by rewrite Hq.
Qed.

Lemma contrast_ratio_reads_number_witness :
  series_get "contrast_ratio" img_alt_empty_features
    = Some (VFloat (451 # 100)).
Proof.
  destruct (contrast_ratio_reads_number img_alt_empty_row
              (str "{'") (str " ") (str "4.51") (str "}"))
    as (_ & Hok & _).
  - reflexivity.
  - reflexivity.
  - by repeat constructor.
  - done.
  - by repeat constructor.
  - by intros c t [= <- _].
  - apply (Hok (451 # 100) img_alt_empty_features); reflexivity.
Defined.

(** *** When [float] rejects a captured number *)

Lemma digit_not_point (c : ascii) :
  is_digit c = true → ascii_eqb "." c = false.
Proof. destruct c as [[] [] [] [] [] [] [] []]; done. Qed.

Lemma digits_value_Some (s : list ascii) (acc : Z) :
  is_Some (digits_value s acc) ↔ Forall (fun c => is_digit c = true) s.
Proof.
  revert acc. induction s as [|c s IH]; intros acc; cbn [digits_value].
  - split; [constructor | by eexists].
  - destruct (is_digit c) eqn:E.
    + rewrite IH. split; [by constructor | by intros [_ ?]%Forall_cons].
    + split; [by intros [] | intros [? _]%Forall_cons; congruence].
Qed.

Lemma count_point_digits (s : list ascii) :
  Forall (fun c => is_digit c = true) s → count ["."%char] s = 0.
Proof.
  intros H. apply count_char_zero. intros Hin.
  apply (proj1 (Forall_forall _ _) H), digit_not_point in Hin.
  by rewrite (proj2 (ascii_eqb_eq "." ".") eq_refl) in Hin.
Qed.

Lemma count_point_cons (s : list ascii) :
  count ["."%char] ("."%char :: s) = 1 + count ["."%char] s.
Proof. apply (count_char_app "." ["."%char] s). Qed.

Lemma number_digits_or_point (s : list ascii) :
  Forall (fun c => is_number_char c = true) s →
  Forall (fun c => is_digit c = true) s ∨ 1 ≤ count ["."%char] s.
Proof.
  induction 1 as [|c s Hc _ IH]; [left; constructor|].
  unfold is_number_char in Hc. destruct (is_digit c) eqn:E.
  - destruct IH as [IH | IH]; [left; by constructor | right].
    change (c :: s) with ([c] ++ s). rewrite count_char_app.
    pose proof (count_from_bounds ["."%char] [c] 0) as [H0 _];
      [simpl; lia|]. unfold count. unfold count in IH. lia.
  - right. rewrite orb_false_l in Hc. apply ascii_eqb_eq in Hc as <-.
    rewrite count_point_cons.
    pose proof (count_from_bounds ["."%char] s 0) as [H0 _]; [simpl; lia|].
    unfold count. lia.
Qed.

Lemma break_point_spec (s : list ascii) :
  Forall (fun c => is_number_char c = true) s →
  Forall (fun c => is_digit c = true) (fst (break_point s)) ∧
  match snd (break_point s) with
  | None => s = fst (break_point s)
  | Some f => s = fst (break_point s) ++ "."%char :: f
  end.
Proof.
  induction 1 as [|c s Hc Hs [IH1 IH2]]; cbn [break_point].
  - split; [constructor | reflexivity].
  - unfold is_number_char in Hc.
    assert (ascii_eqb c "." = ascii_eqb "." c) as ->
      by apply Ascii.eqb_sym.
    destruct (ascii_eqb "." c) eqn:E.
    + apply ascii_eqb_eq in E as <-. split; [constructor | reflexivity].
    + rewrite orb_false_r in Hc. destruct (break_point s) as [a b].
      cbn [fst snd] in *. split; [by constructor|].
      destruct b; simpl; by f_equal.
Qed.

Lemma py_float_rejects (s : list ascii) :
  Forall (fun c => is_number_char c = true) s →
  raises (py_float s) = true ↔
  2 ≤ count ["."%char] s ∨ Forall (fun c => c = "."%char) s.
Proof.
  intros Hs. destruct (break_point_spec s Hs) as [Hip Hfp].
  unfold py_float. destruct (break_point s) as [ip fp]. cbn [fst snd] in *.
  assert (∀ l, Forall (fun c => is_digit c = true) l →
               Forall (fun c => c = "."%char) l → l = []) as Hdp.
  { intros [|c l] Hd Hp; [done|]. apply Forall_cons in Hd as [Hd _].
    apply Forall_cons in Hp as [-> _]. done. }
  destruct fp as [f|]; cbn [default from_option id].
  - subst s. rewrite count_char_app, (count_point_digits ip Hip),
      count_point_cons.
    apply Forall_app in Hs as [_ [_ Hf]%Forall_cons].
    destruct (digits_value (ip ++ f) 0) as [n|] eqn:E.
    + assert (Forall (fun c => is_digit c = true) (ip ++ f)) as Hall
        by (apply (digits_value_Some _ 0); rewrite E; by eexists).
      apply Forall_app in Hall as [_ Hfd].
      rewrite (count_point_digits f Hfd).
      destruct (ip ++ f) as [|x l] eqn:El; simpl; split; try done.
      * intros _. right. apply app_eq_nil in El as [-> ->].
        by repeat constructor.
      * intros [? | Hp]; [lia|]. apply Forall_app in Hp as [Hp1 Hp2].
        apply Forall_cons in Hp2 as [_ Hp2].
        rewrite (Hdp ip Hip Hp1), (Hdp f Hfd Hp2) in El. done.
    + simpl. split; [intros _ | done]. left.
      destruct (number_digits_or_point f Hf) as [Hfd | Hge]; [|lia].
      assert (is_Some (digits_value (ip ++ f) 0)) as [n Hn].
      { apply digits_value_Some. by apply Forall_app. }
      congruence.
  - subst s. rewrite app_nil_r. rewrite (count_point_digits ip Hip).
    destruct (digits_value_Some ip 0) as [_ Hsome].
    destruct (Hsome Hip) as [n ->]. destruct ip as [|x l]; simpl; split;
      try done.
    + intros _. right. constructor.
    + intros [? | Hp]; [lia|]. by specialize (Hdp _ Hip Hp).
Qed.

Lemma number_here_chars (s v : list ascii) :
  number_here s = Some v → Forall (fun c => is_number_char c = true) v.
Proof.
  unfold number_here. destruct s as [|c t]; [done|].
  destruct (is_number_char c) eqn:E; [|done]. intros [= <-].
  constructor; [done | apply take_run_Forall].
Qed.

Lemma first_match_chars (here : list ascii → option (list ascii))
    (P : list ascii → Prop) (s v : list ascii) :
  (∀ t w, here t = Some w → P w) → first_match here s = Some v → P v.
Proof.
  intros Hhere (pre & post & _ & Hv & _)%first_match_spec. by eapply Hhere.
Qed.

Lemma cr_here_chars (s v : list ascii) :
  cr_here s = Some v → Forall (fun c => is_number_char c = true) v.
Proof.
  unfold cr_here. destruct (startswith _ s); [|done]. apply number_here_chars.
Qed.

Lemma fs_here_chars (s v : list ascii) :
  fs_here s = Some v → Forall (fun c => is_number_char c = true) v.
Proof.
  unfold fs_here. destruct (startswith _ s); [|done].
  destruct (drop_run isspace (drop 10 s)) as [|q t]; [done|].
  destruct (is_quote q); [|done]. apply number_here_chars.
Qed.

Lemma float_or_nan_raises (o : option (list ascii)) :
  (∀ v, o = Some v → Forall (fun c => is_number_char c = true) v) →
  raises (float_or_nan (Some <$> o)) = true ↔
  ∃ num, o = Some num ∧
         (2 ≤ count ["."%char] num ∨ Forall (fun c => c = "."%char) num).
Proof.
  intros Hchars. destruct o as [v|]; simpl.
  - change (group1 (Some v)) with v.
    assert (raises (VFloat <$> py_float v) = raises (py_float v)) as ->
      by by destruct (py_float v).
    rewrite (py_float_rejects v) by by apply Hchars. split.
    + intros H. by exists v.
    + by intros (num & [= <-] & H).
  - split; [done | by intros (num & ? & _)].
Qed.

(** X17. The extraction raises exactly when the run of digits and points
    captured after the first matching contrast ratio key, or after the
    first matching font size key, has two or more points or consists of
    points only; in every other case it returns a feature row. *)
Theorem extract_everything_raises_exactly (r : row) :
  let supp := lower (py_str (supplementary_information r)) in
  raises (extract_everything r) = true ↔
  ∃ num,
    (first_match cr_here supp = Some num ∨
     first_match fs_here supp = Some num) ∧
    (2 ≤ count ["."%char] num ∨ Forall (fun c => c = "."%char) num).
Proof.
  intros supp. rewrite extract_everything_raises_iff. fold supp.
  rewrite (search_first_match _ _ match_here_cr).
  rewrite (search_first_match _ _ match_here_fs).
  rewrite orb_true_iff, !float_or_nan_raises.
  - split.
    + intros [(num & H1 & H2) | (num & H1 & H2)]; exists num; tauto.
    + intros (num & [H1 | H1] & H2); [left | right]; by exists num.
  - intros v. apply first_match_chars. apply fs_here_chars.
  - intros v. apply first_match_chars. apply cr_here_chars.
Qed.

(** ** Counts and the schema of a feature row *)

Lemma extract_everything_counts (r : row) (fv : series) :
  extract_everything r = Ok fv →
  let html := lower (py_str (affected_html_elements r)) in
  let supp := lower (py_str (supplementary_information r)) in
  let v_name := lower (py_str (violation_name r)) in
  keys fv = markup_feature_keys ∧
  series_get "snippet_len" fv = Some (VInt (len html)) ∧
  series_get "tag_count" fv = Some (VInt (count (str "<") html)) ∧
  series_get "is_aria_related" fv =
    Some (flag (contains (str "aria") v_name || contains (str "aria") supp)) ∧
  series_get "aria_density" fv = Some (VInt (count (str "aria-") supp)) ∧
  series_get "supp_info_len" fv = Some (VInt (len supp)).
Proof. intros H. extract_ok H cr fs. repeat split. Qed.

Lemma split_from_bound (s cur : list ascii) :
  (2 * length (split_from s cur)
   ≤ length s + (match cur with [] => 1 | _ => 2 end))%nat.
Proof.
  revert cur. induction s as [|c s IH]; intros cur; cbn [split_from].
  - destruct cur; simpl; lia.
  - destruct (isspace c).
    + destruct cur; [specialize (IH []); simpl in *; lia|].
      specialize (IH []). simpl in *. lia.
    + specialize (IH (c :: cur)). simpl in *. destruct cur; lia.
Qed.

(** X18. In a returned feature row the counts are bounded by the lengths
    they are taken from: tag_count lies between 0 and snippet_len, twice
    word_count is at most snippet_len plus 1, five times aria_density is
    at most supp_info_len; and when aria_density is positive,
    is_aria_related is 1. *)
Theorem counts_bounded (r : row) (fv : series) :
  extract_everything r = Ok fv →
  ∃ n tc w d m,
    series_get "snippet_len" fv = Some (VInt n) ∧
    series_get "tag_count" fv = Some (VInt tc) ∧
    series_get "word_count" fv = Some (VInt w) ∧
    series_get "aria_density" fv = Some (VInt d) ∧
    series_get "supp_info_len" fv = Some (VInt m) ∧
    0 ≤ tc ≤ n ∧ 0 ≤ w ∧ 2 * w ≤ n + 1 ∧ 0 ≤ d ∧ 5 * d ≤ m ∧
    (0 < d → series_get "is_aria_related" fv = Some (VInt 1)).
Proof.
  intros H.
  destruct (extract_everything_counts r fv H)
    as (_ & Hn & Htc & Haria & Hd & Hm).
  destruct (extract_everything_fields r fv H) as (_ & Hw & _).
  set (html := lower (py_str (affected_html_elements r))) in *.
  set (supp := lower (py_str (supplementary_information r))) in *.
  eexists _, _, _, _, _. split_and!; try eassumption.
  - by destruct (count_from_bounds (str "<") html 0) as [? _];
      [simpl; lia|].
  - destruct (count_from_bounds (str "<") html 0) as [_ Hb]; [simpl; lia|].
    change (length (str "<")) with 1%nat in Hb. unfold count, len.
    rewrite Nat.min_0_l in Hb. lia.
  - unfold len. lia.
  - pose proof (split_from_bound html []) as Hb. unfold len, split. simpl in Hb.
    lia.
  - by destruct (count_from_bounds (str "aria-") supp 0) as [? _];
      [simpl; lia|].
  - destruct (count_from_bounds (str "aria-") supp 0) as [_ Hb];
      [simpl; lia|].
    change (length (str "aria-")) with 5%nat in Hb. unfold count, len.
    rewrite Nat.min_0_l in Hb. lia.
  - intros Hpos. rewrite Haria.
    apply count_from_positive, contains_spec in Hpos as (pre & post & Hs).
    assert (contains (str "aria") supp = true) as ->.
    { apply contains_spec. exists pre, ("-"%char :: post). by rewrite Hs. }
    by rewrite orb_true_r.
Qed.

Lemma counts_bounded_witness :
  series_get "aria_density" heading_features = Some (VInt 1) ∧
  series_get "is_aria_related" heading_features = Some (VInt 1).
Proof.
  destruct (counts_bounded heading_row heading_features eq_refl)
    as (n & tc & w & d & m & _ & _ & _ & Hd & _ & _ & _ & _ & _ & _ & Hrel).
  assert (d = 1) as -> by (vm_compute in Hd; by injection Hd as <-).
  split; [reflexivity|]. apply Hrel. lia.
Defined.

(** X19. Every returned feature row has the same 25 keys in the same
    order, whatever the record; these keys and the 12 keys of the
    structural features are pairwise distinct; and every candidate feature
    except tag_enc is one of these 37 keys, so on a table that has a column
    for each of them and for tag_enc the filter of the candidate list keeps
    all 24 candidates. *)
Theorem feature_row_schema :
  (∀ r fv, extract_everything r = Ok fv → keys fv = markup_feature_keys) ∧
  (∀ html_parser c fv,
     extract_html_features html_parser c = Ok fv →
     keys fv = html_feature_keys) ∧
  NoDup (markup_feature_keys ++ html_feature_keys) ∧
  (∀ f, f ∈ features →
        f = "tag_enc"%string ∨ f ∈ markup_feature_keys ++ html_feature_keys) ∧
  ("tag_enc"%string ∉ markup_feature_keys ++ html_feature_keys) ∧
  (∀ df : list (string * list value),
     (∀ k, k ∈ "tag_enc"%string :: markup_feature_keys ++ html_feature_keys →
           k ∈ columns df) →
     available_features df = features).
Proof.
  assert (∀ f, f ∈ features →
               f = "tag_enc"%string
               ∨ f ∈ markup_feature_keys ++ html_feature_keys) as Hcand.
  { intros f Hf.
    assert (Forall (fun f => f = "tag_enc"%string
                             ∨ f ∈ markup_feature_keys ++ html_feature_keys)
                   features) as Hall.
    { apply (bool_decide_unpack
               (Forall (fun f => f = "tag_enc"%string
                                 ∨ f ∈ markup_feature_keys ++ html_feature_keys)
                       features)). vm_compute. exact I. }
    by apply (proj1 (Forall_forall _ _) Hall). }
  split_and!; [| | | exact Hcand | |].
  - intros r fv H. by apply extract_everything_counts in H as [? _].
  - intros html_parser c fv H. unfold extract_html_features in H.
    destruct (html_parser _) as [sp|e]; [|discriminate H].
    by injection H as <-.
  - apply (bool_decide_unpack (NoDup (markup_feature_keys ++ html_feature_keys))).
    vm_compute. exact I.
  - apply (bool_decide_unpack
             ("tag_enc"%string ∉ markup_feature_keys ++ html_feature_keys)).
    vm_compute. exact I.
  - intros df Hcols. unfold available_features.
    induction features as [|f fs IH]; [reflexivity|].
    rewrite filter_cons_True.
    + f_equal. apply IH. intros g Hg. apply Hcand. by right.
    + apply Hcols. rewrite elem_of_cons. apply Hcand. by left.
Qed.

(** ** The number of classes *)

Lemma num_class_count (y : list Z) :
  Forall (fun x => 2 ≤ x ≤ 5) y →
  num_class y = length (filter (fun z => z ∈ y) [2; 3; 4; 5]).
Proof.
  intros Hy. unfold num_class. apply Permutation_length.
  apply NoDup_Permutation.
  - apply NoDup_remove_dups.
  - apply NoDup_filter. apply (bool_decide_unpack (NoDup [2; 3; 4; 5])).
    vm_compute. exact I.
  - intros x. rewrite elem_of_remove_dups, list_elem_of_filter.
    split; [|tauto]. intros Hx. split; [done|].
    pose proof (proj1 (Forall_forall _ _) Hy x Hx) as Hr. cbv beta in Hr.
    rewrite !elem_of_cons, elem_of_nil. lia.
Qed.

(** X20. The number of classes handed to the classifier is the number of
    distinct training labels, while the class indices come from the fixed
    score dictionary: for training labels within 2..5, every class index
    is below the number of classes exactly when the labels that occur are
    the first ones of 2, 3, 4, 5 without a gap. *)
Theorem num_class_covers_indices (y : list Z) :
  Forall (fun x => 2 ≤ x ≤ 5) y →
  (∀ x, x ∈ y → ∃ c, score_mapping !! x = Some c ∧ c < Z.of_nat (num_class y))
  ↔ (∀ z, 2 ≤ z < 2 + Z.of_nat (num_class y) → z ∈ y).
Proof.
  intros Hy. rewrite (num_class_count y Hy).
  assert (∀ x, x ∈ y → x = 2 ∨ x = 3 ∨ x = 4 ∨ x = 5) as Hdom.
  { intros x Hx. pose proof (proj1 (Forall_forall _ _) Hy x Hx) as Hr.
    cbv beta in Hr. lia. }
  assert (∀ x k, (∃ c, score_mapping !! x = Some c ∧ c < k) ↔
                 2 ≤ x ≤ 5 ∧ x - 2 < k) as Hidx.
  { intros x k. rewrite score_mapping_lookup. case_bool_decide; split.
    - intros (c & [= <-] & ?). done.
    - intros [_ ?]. by eexists.
    - by intros (c & ? & _).
    - intros [? _]. lia. }
  setoid_rewrite Hidx. clear Hidx.
  rewrite !filter_cons, filter_nil.
  destruct (decide (2 ∈ y)) as [H2 | H2], (decide (3 ∈ y)) as [H3 | H3],
    (decide (4 ∈ y)) as [H4 | H4], (decide (5 ∈ y)) as [H5 | H5];
    cbn [length]; split.
  all: try (intros Hall z Hz;
            try (pose proof (Hall 2 H2)); try (pose proof (Hall 3 H3));
            try (pose proof (Hall 4 H4)); try (pose proof (Hall 5 H5));
            assert (z = 2 ∨ z = 3 ∨ z = 4 ∨ z = 5) as [-> | [-> | [-> | ->]]]
              by lia; first [assumption | lia]).
  all: intros Hall x Hx; destruct (Hdom x Hx) as [-> | [-> | [-> | ->]]];
    try (split; lia); try contradiction;
    exfalso;
    first [ apply H2, Hall; lia | apply H3, Hall; lia
          | apply H4, Hall; lia | apply H5, Hall; lia ].
Qed.

Lemma num_class_covers_indices_witness :
  num_class [2; 5; 2; 3] = 3%nat ∧
  ¬ (∀ z, 2 ≤ z < 2 + Z.of_nat (num_class [2; 5; 2; 3]) → z ∈ [2; 5; 2; 3]) ∧
  ¬ (∀ x, x ∈ [2; 5; 2; 3] →
          ∃ c, score_mapping !! x = Some c
               ∧ c < Z.of_nat (num_class [2; 5; 2; 3])).
Proof.
  assert (Forall (fun x => 2 ≤ x ≤ 5) [2; 5; 2; 3]) as Hy
    by (repeat constructor; lia).
  assert (¬ (∀ z, 2 ≤ z < 2 + Z.of_nat (num_class [2; 5; 2; 3])
                  → z ∈ [2; 5; 2; 3])) as Hgap.
  { intros H. specialize (H 4). rewrite !elem_of_cons, elem_of_nil in H.
    change (num_class [2; 5; 2; 3]) with 3%nat in H. lia. }
  split; [reflexivity|]. split; [exact Hgap|].
  intros H. apply Hgap. by apply (num_class_covers_indices _ Hy).
Defined.

(** ** What the URL flags test *)

Lemma search_point3_meaning (a b c : ascii) (url : list ascii) :
  lower_char a = a → lower_char b = b → lower_char c = c →
  matched (search true (Seq Any (Seq (Lit a) (Seq (Lit b) (Lit c)))) url)
    = true
  ↔ point_then [a; b; c] url.
Proof.
  intros Ha Hb Hc. rewrite search_point3. unfold point_then. split.
  - intros (pre & post & -> & H). unfold point3_here in H.
    destruct post as [|x [|a' [|b' [|c' rest]]]]; try discriminate H.
    apply andb_prop in H as [H Hc']. apply andb_prop in H as [H Hb'].
    apply andb_prop in H as [Hx Ha'].
    unfold same_char in Ha', Hb', Hc'. apply ascii_eqb_eq in Ha', Hb', Hc'.
    exists pre, x, [a'; b'; c'], rest. split_and!.
    + reflexivity.
    + intros ->. discriminate Hx.
    + unfold lower. cbn [map]. by rewrite <- Ha', <- Hb', <- Hc', Ha, Hb, Hc.
  - intros (pre & x & t & post & -> & Hx & Ht).
    destruct t as [|a' [|b' [|c' [|? ?]]]]; try discriminate Ht.
    unfold lower in Ht. cbn [map] in Ht. injection Ht as Ha' Hb' Hc'.
    exists pre, (x :: a' :: b' :: c' :: post). split; [reflexivity|].
    unfold point3_here, same_char.
    rewrite !andb_true_iff, !ascii_eqb_eq, Ha', Hb', Hc', Ha, Hb, Hc.
    split_and!; try reflexivity.
    destruct (ascii_eqb x line_feed) eqn:E; [|done].
    by apply ascii_eqb_eq in E.
Qed.

Lemma literal_point_then (w url : list ascii) :
  has_substring ("."%char :: w) (lower url) → point_then w url.
Proof.
  intros (pre & post & Heq). unfold lower in Heq.
  apply map_eq_app in Heq as (pre' & rest & -> & _ & Heq).
  cbn [app] in Heq. apply map_eq_cons in Heq as (x & rest' & -> & Hx & Heq).
  apply map_eq_app in Heq as (t & post' & -> & Ht & _).
  exists pre', x, t, post'. split_and!; [done | | done].
  intros ->. discriminate Hx.
Qed.

(** X21. What the URL flags test: is_gov is 1 exactly when somewhere in
    the URL a character other than a line feed is followed by the letters
    g, o, v in either case, and is 0 otherwise; the same holds for is_edu
    and is_org with their letters.  So a URL whose lower-cased form
    contains .gov, .edu or .org does get the flag. *)
Theorem url_flags_meaning (url : list ascii) :
  (is_gov [CStr url] = [VInt 1] ↔ point_then (str "gov") url) ∧
  (is_edu [CStr url] = [VInt 1] ↔ point_then (str "edu") url) ∧
  (is_org [CStr url] = [VInt 1] ↔ point_then (str "org") url) ∧
  (is_gov [CStr url] = [VInt 0] ↔ ¬ point_then (str "gov") url) ∧
  (is_edu [CStr url] = [VInt 0] ↔ ¬ point_then (str "edu") url) ∧
  (is_org [CStr url] = [VInt 0] ↔ ¬ point_then (str "org") url) ∧
  (has_substring (str ".gov") (lower url) → is_gov [CStr url] = [VInt 1]) ∧
  (has_substring (str ".edu") (lower url) → is_edu [CStr url] = [VInt 1]) ∧
  (has_substring (str ".org") (lower url) → is_org [CStr url] = [VInt 1]).
Proof.
  pose proof (search_point3_meaning "g" "o" "v" url eq_refl eq_refl eq_refl)
    as Hgov.
  pose proof (search_point3_meaning "e" "d" "u" url eq_refl eq_refl eq_refl)
    as Hedu.
  pose proof (search_point3_meaning "o" "r" "g" url eq_refl eq_refl eq_refl)
    as Horg.
  unfold is_gov, is_edu, is_org, astype_int, str_contains. cbn [map negb].
  change (re_compile (str ".gov"))
    with (Seq Any (Seq (Lit "g") (Seq (Lit "o") (Lit "v")))).
  change (re_compile (str ".edu"))
    with (Seq Any (Seq (Lit "e") (Seq (Lit "d") (Lit "u")))).
  change (re_compile (str ".org"))
    with (Seq Any (Seq (Lit "o") (Seq (Lit "r") (Lit "g")))).
  change (str "gov") with ["g"; "o"; "v"]%char.
  change (str "edu") with ["e"; "d"; "u"]%char.
  change (str "org") with ["o"; "r"; "g"]%char.
  assert (∀ (m : bool) (P : Prop), (m = true ↔ P) →
            ([flag m] = [VInt 1] ↔ P) ∧ ([flag m] = [VInt 0] ↔ ¬ P)) as Hflag.
  { intros [] P HP; simpl; split; split; intros H; try done.
    - by apply HP.
    - by destruct H; apply HP.
    - apply HP in H. done.
    - intros HP'. apply HP in HP'. done. }
  destruct (Hflag _ _ Hgov) as [G1 G0]. destruct (Hflag _ _ Hedu) as [E1 E0].
  destruct (Hflag _ _ Horg) as [O1 O0].
  split_and!; try done.
  - intros H. apply G1. by apply literal_point_then.
  - intros H. apply E1. by apply literal_point_then.
  - intros H. apply O1. by apply literal_point_then.
Qed.

(** ** Bounds on the structural features *)

Lemma node_induction (P : node → Prop) :
  (∀ cls s, P (StringNode cls s)) →
  (∀ name attrs children, Forall P children → P (Tag name attrs children)) →
  ∀ n, P n.
Proof.
  intros Hstr Htag. fix IH 1. intros [name attrs children | cls s].
  - apply Htag. induction children as [|c children IHc].
    + constructor.
    + constructor; [apply IH | exact IHc].
  - apply Hstr.
Qed.

Lemma len_app {A : Type} (a b : list A) : len (a ++ b) = len a + len b.
Proof. unfold len. rewrite length_app. lia. Qed.

Lemma len_nonneg {A : Type} (a : list A) : 0 ≤ len a.
Proof. unfold len. lia. Qed.

Lemma flat_map_sublist {A B : Type} (f g : A → list B) (l : list A) :
  Forall (fun a => sublist (f a) (g a)) l →
  sublist (flat_map f l) (flat_map g l).
Proof.
  induction 1 as [|a l Ha _ IH]; cbn [flat_map]; [constructor|].
  by apply sublist_app.
Qed.

Lemma flat_map_elem_sublist {A B : Type} (f : A → list B) (l : list A) (a : A) :
  a ∈ l → sublist (f a) (flat_map f l).
Proof.
  induction l as [|x l IH]; [by intros ?%elem_of_nil|].
  cbn [flat_map]. intros [-> | Hin]%elem_of_cons.
  - by apply sublist_inserts_r.
  - by apply sublist_inserts_l, IH.
Qed.

Lemma concat_sublist_len {A : Type} (l1 l2 : list (list A)) :
  sublist l1 l2 → len (concat l1) ≤ len (concat l2).
Proof.
  induction 1 as [|x l1 l2 _ IH|x l1 l2 _ IH]; cbn [concat].
  - lia.
  - rewrite !len_app. lia.
  - rewrite len_app. pose proof (len_nonneg x). lia.
Qed.

(** The strings [get_text] collects are among the strings of the tree. *)
Lemma all_strings_sublist (types : string_class → bool) (n : node) :
  sublist (all_strings types n) (all_strings any_class n).
Proof.
  induction n as [cls s | name attrs children IH] using node_induction;
    cbn [all_strings].
  - destruct (types cls); [reflexivity | apply sublist_nil_l].
  - by apply flat_map_sublist.
Qed.

Lemma tags_of_strings (n t : node) :
  t ∈ tags_of n →
  sublist (all_strings any_class t) (all_strings any_class n).
Proof.
  revert t. induction n as [cls s | name attrs children IH] using node_induction;
    intros t; cbn [tags_of].
  - by intros ?%elem_of_nil.
  - intros [-> | Hin]%elem_of_cons; [reflexivity|].
    apply list_elem_of_In, in_flat_map in Hin as (c & Hc & Ht).
    apply list_elem_of_In in Hc, Ht.
    pose proof (proj1 (Forall_forall _ _) IH c Hc t Ht) as Hsub.
    etransitivity; [exact Hsub|]. cbn [all_strings].
    by apply flat_map_elem_sublist.
Qed.

Lemma get_text_le (n : node) :
  len (get_text n) ≤ len (concat (all_strings any_class n)).
Proof.
  destruct n as [name attrs children | cls s].
  - change (get_text (Tag name attrs children))
      with (concat (all_strings (interesting_string_types name)
                      (Tag name attrs children))).
    apply concat_sublist_len, all_strings_sublist.
  - cbn [get_text all_strings any_class concat]. rewrite app_nil_r.
    destruct (default_string_types cls); [lia | apply len_nonneg].
Qed.

Lemma find_all_text_le (sp : soup) (t : node) :
  t ∈ find_all sp → len (get_text t) ≤ total_text sp.
Proof.
  unfold find_all, total_text. intros Hin.
  apply list_elem_of_In, in_flat_map in Hin as (c & Hc & Ht).
  apply list_elem_of_In in Hc, Ht.
  pose proof (get_text_le t) as Ht'.
  pose proof (concat_sublist_len _ _ (tags_of_strings c t Ht)) as Hc'.
  pose proof (concat_sublist_len _ _
                (flat_map_elem_sublist (all_strings any_class) sp c Hc)).
  lia.
Qed.

Lemma sum_Z_bounds (l : list Z) (b : Z) :
  Forall (fun x => 0 ≤ x ≤ b) l →
  0 ≤ sum_Z l ≤ b * Z.of_nat (length l).
Proof.
  induction 1 as [|x l Hx _ IH]; simpl; [lia|]. nia.
Qed.

Lemma find_all_named_le (names : list (list ascii)) (sp : soup) :
  0 ≤ len (find_all_named names sp) ≤ len (find_all sp).
Proof.
  unfold find_all_named, len.
  pose proof (List.filter_length_le
                (fun n => existsb (text_eqb (tag_name n)) names) (find_all sp)).
  lia.
Qed.

(** X22. Whatever tree the parser returns: each structural count lies
    between 0 and the number of tags of the tree, each structural flag is 0
    or 1, and the mean text length is either the integer 0 or a quotient
    between 0 and the length of all the strings of the tree, those of
    scripts, style sheets and comments included.  The text of a tag leaves
    out the script strings below it: in the tree of a division that holds
    a script of six characters and the text hi, the text lengths are 2 for
    the division and 6 for the script, and the strings of the tree have 8
    characters. *)
Theorem html_features_bounded
    (html_parser : list ascii → result soup) (c : cell) :
  (∀ sp, html_parser (if pd_isna c then [] else py_str c) = Ok sp →
     ∃ fv, extract_html_features html_parser c = Ok fv ∧
       Forall (fun k => ∃ n, series_get k fv = Some (VInt n) ∧
                             0 ≤ n ≤ len (find_all sp)) html_count_keys ∧
       Forall (fun k => series_get k fv = Some (VInt 0) ∨
                        series_get k fv = Some (VInt 1)) html_flag_keys ∧
       (series_get "avg_text_len_per_tag" fv = Some (VInt 0) ∨
        ∃ q, series_get "avg_text_len_per_tag" fv = Some (VFloat q) ∧
             (0 <= q)%Q ∧ (q <= inject_Z (total_text sp))%Q)) ∧
  map (fun t => (tag_name t, len (get_text t))) (find_all script_tree)
    = [(str "div", 2); (str "script", 6)] ∧
  total_text script_tree = 8.
Proof.
  split; [|split; reflexivity].
  intros sp Hsp. eexists. split.
  { unfold extract_html_features. rewrite extract_html_features_markup, Hsp.
    reflexivity. }
  assert (∀ b : bool, flag b = VInt 0 ∨ flag b = VInt 1) as Hflag
    by (intros []; simpl; tauto).
  split_and!.
  - unfold html_count_keys.
    repeat (apply Forall_cons; split); [.. | by apply Forall_nil];
      (eexists; split; [reflexivity | apply find_all_named_le]).
  - unfold html_flag_keys.
    repeat (apply Forall_cons; split); [.. | by apply Forall_nil];
      cbn [series_get String.eqb Ascii.eqb Bool.eqb];
      match goal with |- Some (flag ?b) = _ ∨ _ =>
        destruct (Hflag b) as [-> | ->]; tauto end.
  - cbn [series_get String.eqb Ascii.eqb Bool.eqb].
    fold (text_lengths sp). unfold np_mean.
    assert (length (text_lengths sp) = length (find_all sp)) as Hlen
      by apply length_map.
    rewrite Hlen. destruct (find_all sp) as [|t ts] eqn:E; [by left|].
    right. cbn [truthy length]. eexists. split; [reflexivity|].
    assert (Forall (fun x => 0 ≤ x ≤ total_text sp) (text_lengths sp)) as Hb.
    { unfold text_lengths. rewrite E. apply Forall_forall. intros x Hx.
      apply list_elem_of_In, in_map_iff in Hx as (u & <- & Hu).
      apply list_elem_of_In in Hu. rewrite <- E in Hu.
      split; [apply len_nonneg | by apply find_all_text_le]. }
    apply sum_Z_bounds in Hb. rewrite Hlen in Hb. cbn [length] in Hb.
    unfold Qle. cbn [Qnum Qden inject_Z].
    rewrite <- Pos.of_nat_succ, Zpos_P_of_succ_nat.
    rewrite Nat2Z.inj_succ in Hb. lia.
Qed.

(** ** The values of contrast ratio and font size *)

Lemma digits_value_nonneg (s : list ascii) (acc n : Z) :
  0 ≤ acc → digits_value s acc = Some n → 0 ≤ n.
Proof.
  revert acc. induction s as [|c s IH]; intros acc Hacc; cbn [digits_value].
  - by intros [= <-].
  - destruct (is_digit c) eqn:E; [|done]. apply IH.
    unfold is_digit, in_range in E. apply andb_prop in E as [E _].
    apply N.leb_le in E. change (code "0") with 48%N in E. lia.
Qed.

Lemma py_float_nonneg (s : list ascii) (q : Q) :
  py_float s = Ok q → (0 <= q)%Q.
Proof.
  unfold py_float. destruct (break_point s) as [ip fp].
  destruct (digits_value _ 0) as [n|] eqn:E; [|done].
  destruct (ip ++ default [] fp); [done|]. intros [= <-].
  unfold Qle. simpl. apply digits_value_nonneg in E; lia.
Qed.

Lemma float_or_nan_value (o : option (list ascii)) (v : value) :
  float_or_nan (Some <$> o) = Ok v →
  (v = VNaN ↔ o = None) ∧
  (v = VNaN ∨ ∃ q, v = VFloat q ∧ (0 <= q)%Q).
Proof.
  destruct o as [num|]; simpl.
  - change (group1 (Some num)) with num.
    destruct (py_float num) as [q|] eqn:E; [|done]. intros [= <-].
    split; [split; discriminate|]. right. exists q.
    split; [done | by eapply py_float_nonneg].
  - intros [= <-]. split; [done | by left].
Qed.

(** X23. In a returned feature row, contrast_ratio is [NaN] exactly when
    no contrast ratio key followed by a number occurs in the lower-cased
    metadata, and otherwise it is a number that is not negative; the same
    holds for font_size and the font size key followed by a quoted
    number. *)
Theorem metadata_numbers (r : row) (fv : series) :
  extract_everything r = Ok fv →
  let supp := lower (py_str (supplementary_information r)) in
  ∃ cr fs,
    series_get "contrast_ratio" fv = Some cr ∧
    series_get "font_size" fv = Some fs ∧
    (cr = VNaN ↔ first_match cr_here supp = None) ∧
    (fs = VNaN ↔ first_match fs_here supp = None) ∧
    (cr = VNaN ∨ ∃ q, cr = VFloat q ∧ (0 <= q)%Q) ∧
    (fs = VNaN ∨ ∃ q, fs = VFloat q ∧ (0 <= q)%Q).
Proof.
  intros H supp. unfold extract_everything in H. fold supp in H.
  rewrite (search_first_match _ _ match_here_cr) in H.
  rewrite (search_first_match _ _ match_here_fs) in H.
  destruct (float_or_nan (Some <$> first_match cr_here supp)) as [cr|] eqn:Ecr;
    [|discriminate H].
  destruct (float_or_nan (Some <$> first_match fs_here supp)) as [fs|] eqn:Efs;
    [|discriminate H].
  injection H as <-.
  destruct (float_or_nan_value _ _ Ecr) as [? ?].
  destruct (float_or_nan_value _ _ Efs) as [? ?].
  exists cr, fs. split_and!; try done.
Qed.

Lemma metadata_numbers_witness :
  series_get "contrast_ratio" img_alt_empty_features
    = Some (VFloat (451 # 100)) ∧
  series_get "font_size" img_alt_empty_features = Some VNaN ∧
  first_match fs_here
    (lower (py_str (supplementary_information img_alt_empty_row))) = None.
Proof.
  destruct (metadata_numbers img_alt_empty_row img_alt_empty_features eq_refl)
    as (cr & fs & Hcr & Hfs & _ & Hnone & _).
  split; [reflexivity|]. split; [reflexivity|].
  apply Hnone. vm_compute in Hfs. by injection Hfs as <-.
Defined.

(** ** The level of a WCAG reference *)

Lemma has_substring_extend (n w pre post : list ascii) :
  has_substring n w → has_substring n (pre ++ w ++ post).
Proof.
  intros (a & b & ->). exists (pre ++ a), (b ++ post).
  by rewrite <- !app_assoc.
Qed.

(** A character that [lower] sends to the letter a is sent to the letter
    A by [upper]. *)
Lemma letter_a_upper (c : ascii) :
  lower_char c = "a"%char → upper_char c = "A"%char.
Proof.
  destruct c as [[] [] [] [] [] [] [] []]; intros H;
    first [discriminate H | reflexivity].
Qed.

Lemma letters_a_upper (k : nat) (r : list ascii) :
  map lower_char r = repeat "a"%char k → map upper_char r = repeat "A"%char k.
Proof.
  revert k. induction r as [|c r IH]; intros [|k]; cbn [map repeat]; try done.
  intros [= Hc Hr]. f_equal; [by apply letter_a_upper | by apply IH].
Qed.

(** Where the lower-cased reference has [k] letters a in a row, the
    upper-cased reference has [k] letters A in a row. *)
Lemma lower_run_upper (k : nat) (ref : list ascii) :
  has_substring (repeat "a"%char k) (lower ref) →
  has_substring (repeat "A"%char k) (upper ref).
Proof.
  unfold lower, upper. intros (pre & post & Heq).
  apply map_eq_app in Heq as (r1 & r23 & -> & _ & Heq).
  apply map_eq_app in Heq as (r2 & r3 & -> & Hrun & _).
  exists (map upper_char r1), (map upper_char r3).
  by rewrite !map_app, (letters_a_upper k r2 Hrun).
Qed.

Lemma wcag_level_extend (pre w post : list ascii) :
  wcag_level w ≤ wcag_level (pre ++ w ++ post).
Proof.
  assert (∀ w, 0 ≤ wcag_level w ≤ 3) as Hrange.
  { intros u. unfold wcag_level.
    destruct (contains (str "AAA") u), (contains (str "AA") u),
      (contains (str "A") u); lia. }
  destruct (wcag_level_cases w) as (W3 & W2 & W1 & W0).
  destruct (wcag_level_cases (pre ++ w ++ post)) as (E3 & E2 & E1 & E0).
  pose proof (Hrange w). pose proof (Hrange (pre ++ w ++ post)).
  destruct (decide (wcag_level w = 3)) as [H3 | ?].
  { apply W3, (has_substring_extend _ _ pre post), E3 in H3. lia. }
  destruct (decide (wcag_level w = 2)) as [H2 | ?].
  { apply W2 in H2 as [_ H2].
    apply (has_substring_extend _ _ pre post) in H2.
    destruct (decide (wcag_level (pre ++ w ++ post) ≤ 1)) as [Hle|]; [|lia].
    assert (wcag_level (pre ++ w ++ post) = 1
            ∨ wcag_level (pre ++ w ++ post) = 0) as [Hc | Hc] by lia.
    - apply E1 in Hc. tauto.
    - apply E0 in Hc. tauto. }
  destruct (decide (wcag_level w = 1)) as [H1 | ?]; [|lia].
  apply W1 in H1 as (_ & _ & H1).
  apply (has_substring_extend _ _ pre post) in H1.
  destruct (decide (wcag_level (pre ++ w ++ post) = 0)) as [Hc|]; [|lia].
  apply E0 in Hc. tauto.
Qed.

(** X24. The WCAG level is one of 0, 1, 2, 3; text added before or after a
    reference never lowers it; a reference with the letter a, in either
    case, has level 1 at least, with two such letters in a row level 2 at
    least, and with three in a row level 3; so a reference that spells
    wcag, in any case, has level 1 at least, as has a missing reference,
    which is read as the text nan. *)
Theorem wcag_level_monotone :
  (∀ w, 0 ≤ wcag_level w ≤ 3) ∧
  (∀ pre w post, wcag_level w ≤ wcag_level (pre ++ w ++ post)) ∧
  (∀ pre ref post,
     wcag_level (upper ref) ≤ wcag_level (upper (pre ++ ref ++ post))) ∧
  (∀ ref, has_substring (str "a") (lower ref) →
          1 ≤ wcag_level (upper ref)) ∧
  (∀ ref, has_substring (str "aa") (lower ref) →
          2 ≤ wcag_level (upper ref)) ∧
  (∀ ref, has_substring (str "aaa") (lower ref) →
          wcag_level (upper ref) = 3) ∧
  (∀ ref, has_substring (str "wcag") (lower ref) →
          1 ≤ wcag_level (upper ref)) ∧
  wcag_level (upper (py_str CNaN)) = 1.
Proof.
  assert (∀ w, 0 ≤ wcag_level w ≤ 3) as Hrange.
  { intros w. unfold wcag_level.
    destruct (contains (str "AAA") w), (contains (str "AA") w),
      (contains (str "A") w); lia. }
  assert (∀ ref, has_substring (str "a") (lower ref) →
                 1 ≤ wcag_level (upper ref)) as Hone.
  { intros ref H. apply (lower_run_upper 1) in H.
    destruct (wcag_level_cases (upper ref)) as (_ & _ & _ & H0).
    destruct (decide (wcag_level (upper ref) = 0)) as [Hz|];
      [|pose proof (Hrange (upper ref)); lia].
    apply H0 in Hz as (_ & _ & Hz). by destruct Hz. }
  split_and!.
  - exact Hrange.
  - apply wcag_level_extend.
  - intros pre ref post. unfold upper. rewrite !map_app.
    apply wcag_level_extend.
  - exact Hone.
  - intros ref H. apply (lower_run_upper 2) in H.
    destruct (wcag_level_cases (upper ref)) as (_ & _ & H1 & H0).
    pose proof (Hrange (upper ref)).
    destruct (decide (wcag_level (upper ref) = 0)) as [Hz|].
    { apply H0 in Hz as (_ & Hz & _). by destruct Hz. }
    destruct (decide (wcag_level (upper ref) = 1)) as [Hz|]; [|lia].
    apply H1 in Hz as (_ & Hz & _). by destruct Hz.
  - intros ref H. apply (lower_run_upper 3) in H.
    by apply (wcag_level_cases (upper ref)).
  - intros ref (pre & post & Heq). apply Hone.
    exists (pre ++ str "wc"), (str "g" ++ post). rewrite Heq.
    by rewrite <- !app_assoc.
  - reflexivity.
Qed.

(** ** What goes into the oversampler *)

Lemma fresh_ne (h : gmap nat obj) (l : nat) :
  is_Some (h !! l) → fresh (dom h) ≠ l.
Proof.
  intros Hl <-. apply elem_of_dom in Hl. by apply is_fresh in Hl.
Qed.

Lemma split_step_distinct (tts : splitter) (X : list (string * list value))
    (y : list value) h v h' :
  split_step tts X y h = Ok (v, h') →
  NoDup [X_train v; X_test v; y_train v; y_test v].
Proof.
  unfold split_step. intros H.
  apply bind_Ok in H as ([[[Xtr Xte] ytr] yte] & h1 & [Htts ->]%lift_Ok & H).
  apply bind_Ok in H as (a & h2 & [Ha ->]%new_Ok & H).
  apply bind_Ok in H as (b & h3 & [Hb ->]%new_Ok & H).
  apply bind_Ok in H as (c & h4 & [Hc ->]%new_Ok & H).
  apply bind_Ok in H as (d & h5 & [Hd ->]%new_Ok & H).
  apply ret_Ok in H as [-> ->]. simpl.
  assert (a ≠ b) by (intros ->; by rewrite lookup_insert_eq in Hb).
  assert (c ≠ a ∧ c ≠ b) as [? ?].
  { split; intros ->; simplify_map_eq. }
  assert (d ≠ a ∧ d ≠ b ∧ d ≠ c) as (? & ? & ?).
  { split_and!; intros ->; simplify_map_eq. }
  repeat (apply NoDup_cons; split); [.. | apply NoDup_nil_2];
    rewrite ?not_elem_of_cons; split_and?;
    first [congruence | apply not_elem_of_nil].
Qed.

(** X25. After a split that returned, the remap and oversample steps
    hand the oversampler the training rows together with the training
    labels mapped to class indices.  If the oversampler raises, the steps
    raise the same error, and they have no other way to fail; if it
    returns, its two results are stored as the balanced training set, the
    mapped test labels are stored beside it, and the raw training labels
    are still what the split returned. *)
Theorem balance_data_flow
    (train_test_split : splitter) (fit_resample : resampler)
    (X : list (string * list value)) (y : list value)
    (h0 h1 : gmap nat obj) (v : split_vars)
    (Xtr Xte : list (string * list value)) (ytr yte : list value) :
  split_step train_test_split X y h0 = Ok (v, h1) →
  train_test_split X y = Ok (Xtr, Xte, ytr, yte) →
  match fit_resample Xtr (map (map_value score_mapping) ytr) with
  | Raise e => balance_step fit_resample v h1 = Raise e
  | Ok ((X', y'), (Xr, yr)) =>
      ∃ b h2,
        balance_step fit_resample v h1 = Ok (b, h2) ∧
        h2 !! X_train_smote b = Some (OFrame Xr) ∧
        h2 !! y_train_smote b = Some (OSeries yr) ∧
        h2 !! y_test_mapped b
          = Some (OSeries (map (map_value score_mapping) yte)) ∧
        h2 !! y_train v = Some (OSeries ytr)
  end.
Proof.
  intros Hsplit Htts.
  pose proof (split_step_distinct _ _ _ _ _ _ Hsplit) as Hnd.
  apply split_step_spec in Hsplit
    as (Xtr' & Xte' & ytr' & yte' & Htts' & Hxtr & Hxte & Hytr & Hyte & _).
  rewrite Htts in Htts'. injection Htts' as <- <- <- <-.
  apply NoDup_cons in Hnd as [Hn1 Hnd]. apply NoDup_cons in Hnd as [Hn2 Hnd].
  apply NoDup_cons in Hnd as [Hn3 _].
  repeat rewrite not_elem_of_cons in Hn1.
  repeat rewrite not_elem_of_cons in Hn2.
  repeat rewrite not_elem_of_cons in Hn3.
  destruct Hn1 as (Hab & Hac & Had & _). destruct Hn2 as (Hbc & Hbd & _).
  destruct Hn3 as (Hcd & _).
  set (ytm := map (map_value score_mapping) ytr).
  set (yem := map (map_value score_mapping) yte).
  set (l1 := fresh (dom h1)).
  set (h3 := <[l1 := OSeries ytm]> h1).
  set (l2 := fresh (dom h3)).
  set (h4 := <[l2 := OSeries yem]> h3).
  assert (l1 ≠ X_train v ∧ l1 ≠ y_train v ∧ l1 ≠ y_test v) as (L1a & L1c & L1d).
  { split_and!; apply fresh_ne; by eexists. }
  assert (h3 !! X_train v = Some (OFrame Xtr) ∧
          h3 !! y_train v = Some (OSeries ytr) ∧
          h3 !! y_test v = Some (OSeries yte) ∧
          h3 !! l1 = Some (OSeries ytm)) as (H3a & H3c & H3d & H3l).
  { subst h3. split_and!; by simplify_map_eq. }
  assert (l2 ≠ X_train v ∧ l2 ≠ y_train v ∧ l2 ≠ l1) as (L2a & L2c & L2l).
  { split_and!; apply fresh_ne; by eexists. }
  assert (h4 !! X_train v = Some (OFrame Xtr) ∧
          h4 !! y_train v = Some (OSeries ytr) ∧
          h4 !! l1 = Some (OSeries ytm) ∧
          h4 !! l2 = Some (OSeries yem)) as (H4a & H4c & H4l & H4m).
  { subst h4. split_and!; by simplify_map_eq. }
  assert (map_step score_mapping (y_train v) h1 = Ok (l1, h3)) as Hm1.
  { unfold map_step, mbind, M_bind, read_series. rewrite Hytr.
    reflexivity. }
  assert (map_step score_mapping (y_test v) h3 = Ok (l2, h4)) as Hm2.
  { unfold map_step, mbind, M_bind, read_series. rewrite H3d.
    reflexivity. }
  fold ytm.
  destruct (fit_resample Xtr ytm) as [[[X' y'] [Xr yr]]|e] eqn:Efr.
  2: { unfold balance_step. unfold mbind at 1, M_bind at 1. rewrite Hm1.
       unfold mbind at 1, M_bind at 1. rewrite Hm2.
       unfold mbind at 1, M_bind at 1.
       unfold smote_step, mbind, M_bind, read_frame, read_series.
       rewrite H4a, H4l. unfold lift. by rewrite Efr. }
  unfold balance_step. unfold mbind at 1, M_bind at 1. rewrite Hm1.
  unfold mbind at 1, M_bind at 1. rewrite Hm2.
  unfold mbind at 1, M_bind at 1.
  unfold smote_step, mbind, M_bind, read_frame, read_series.
  rewrite H4a, H4l. unfold lift. rewrite Efr.
  unfold write, new, mret, M_ret. cbn [fst snd].
  set (h5 := <[l1 := OSeries y']> (<[X_train v := OFrame X']> h4)).
  set (l3 := fresh (dom h5)).
  set (h6 := <[l3 := OFrame Xr]> h5).
  set (l4 := fresh (dom h6)).
  assert (h5 !! y_train v = Some (OSeries ytr) ∧
          h5 !! l2 = Some (OSeries yem)) as (H5c & H5m).
  { subst h5. split; by simplify_map_eq. }
  assert (l3 ≠ y_train v ∧ l3 ≠ l2) as (L3c & L3m).
  { split; apply fresh_ne; by eexists. }
  assert (h6 !! y_train v = Some (OSeries ytr) ∧
          h6 !! l2 = Some (OSeries yem) ∧
          h6 !! l3 = Some (OFrame Xr)) as (H6c & H6m & H6l).
  { subst h6. split_and!; by simplify_map_eq. }
  assert (l4 ≠ y_train v ∧ l4 ≠ l2 ∧ l4 ≠ l3) as (L4c & L4m & L4l).
  { split_and!; apply fresh_ne; by eexists. }
  eexists _, _. split; [reflexivity|]. cbn [X_train_smote y_train_smote
    y_test_mapped fst snd].
  split_and!; by simplify_map_eq.
Qed.

Lemma balance_data_flow_witness :
  ∃ v h1 b h2,
    split_step first_row_split demo_X demo_y ∅ = Ok (v, h1) ∧
    balance_step doubling_resampler v h1 = Ok (b, h2) ∧
    h2 !! y_train_smote b
      = Some (OSeries [VInt 0; VInt 1; VInt 0; VInt 1]) ∧
    h2 !! y_test_mapped b = Some (OSeries [VInt 3]).
Proof.
  destruct (split_step first_row_split demo_X demo_y ∅)
    as [[v h1]|e] eqn:E1; [|by vm_compute in E1].
  pose proof (balance_data_flow first_row_split doubling_resampler
                demo_X demo_y ∅ h1 v _ _ _ _ E1 eq_refl) as H.
  destruct H as (b & h2 & Hb & _ & Hys & Hyt & _).
  exists v, h1, b, h2. split; [reflexivity|]. split; [exact Hb|].
  split; [exact Hys | exact Hyt].
Defined.
